(** * gemini-app: the chat controller, the stores and the model gateway

    A shallow embedding of the TypeScript sources:
    - [App.tsx] (the version with chat sessions): [usePersistentState],
      [ImageUploader.handleFileChange], the handlers and the effect of
      [Chatbot], [VideoAnimator.handleAnimate], the audio decoding of
      [SpeechGenerator], and the [App] component's history effects and
      handlers;
    - [services/geminiService.ts]: [getApiKey], [editImageWithPrompt],
      [generateImageWithPrompt], [analyzeImage], [searchWithGoogle],
      [animateImageWithVeo];
    - [types.ts].

    JavaScript strings are sequences of UTF-16 code units; [length],
    [substring], [+] and [trim] all work on code units, so a string is a
    [list N] here.  Asynchronous code is written as explicit state passing:
    a component is a record of its [useState] cells, and everything that
    resolves later (a timer, a stream fragment, a provider reply) is an
    event or a scripted reply handed to the model. *)

From Stdlib Require Import NArith List String Ascii Bool Lia PrimFloat.
From stdpp Require Import base option list gmap.
From Stdlib Require QArith_base DecimalString.

Local Open Scope N_scope.

(** ** JavaScript values *)

Module JS.

Abbreviation jsstring := (list N).

(** A string literal of the source whose characters are all ASCII. *)
Definition lit (s : string) : jsstring :=
  (fun a => N_of_ascii a) <$> list_ascii_of_string s.
Arguments lit s%_string.

(** [Boolean(s)] for a string: only the empty string is falsy. *)
Definition truthy (s : jsstring) : bool :=
  match s with [] => false | _ :: _ => true end.

(** [Boolean(x)] for a value that may be [undefined] or [null]. *)
Definition truthy_opt (o : option jsstring) : bool :=
  match o with Some s => truthy s | None => false end.

(** ECMAScript WhiteSpace and LineTerminator code units, the set that
    [String.prototype.trim] removes. *)
Definition isWhiteSpace (c : N) : bool :=
  ((9 <=? c) && (c <=? 13)) || (c =? 32) || (c =? 160) || (c =? 5760)
  || ((8192 <=? c) && (c <=? 8202)) || (c =? 8232) || (c =? 8233)
  || (c =? 8239) || (c =? 8287) || (c =? 12288) || (c =? 65279).

Fixpoint trimStart (s : jsstring) : jsstring :=
  match s with
  | c :: s' => if isWhiteSpace c then trimStart s' else s
  | [] => []
  end.

Definition trimEnd (s : jsstring) : jsstring := rev (trimStart (rev s)).

Definition trim (s : jsstring) : jsstring := trimEnd (trimStart s).

(** [s.substring(0, n)]. *)
Definition substring0 (n : nat) (s : jsstring) : jsstring := take n s.

(** [s.slice(0, -n)] on an array: all but the last [n] elements, and the
    empty array when there are fewer than [n]. *)
Definition slice0_neg {A} (n : nat) (l : list A) : list A :=
  take (length l - n) l.

Fixpoint startsWith (p s : jsstring) : bool :=
  match p, s with
  | [], _ => true
  | a :: p', b :: s' => (a =? b) && startsWith p' s'
  | _ :: _, [] => false
  end.

(** [s.includes(p)]. *)
Fixpoint includes (p s : jsstring) : bool :=
  startsWith p s || match s with [] => false | _ :: s' => includes p s' end.

(** What a [throw] carries.  The sources throw [new Error(<message>)];
    each constructor stands for one of the messages, named as the
    specification names the failure:
    - [CredentialUnavailable]: "API_KEY environment variable is not set";
    - [NoImageProduced]: the "no image was produced in the response"
      message of [editImageWithPrompt] and [generateImageWithPrompt];
    - [NoVideoProduced]: the "video creation failed" message;
    - [CredentialInvalidated]: the "API key is invalid, select again"
      message;
    - [TypeError]: the engine's own error for a property read on
      [undefined] or [null];
    - [SyntaxError]: [JSON.parse] on malformed text;
    - [QuotaExceededError]: [localStorage.setItem] when the quota is
      used up;
    - [Transport m]: an error raised by the provider SDK or the network,
      with its [message] ([None] when it has none). *)
Inductive Error :=
| CredentialUnavailable
| NoImageProduced
| NoVideoProduced
| CredentialInvalidated
| TypeError
| SyntaxError
| QuotaExceededError
| Transport (message : option jsstring).

(** A computation that returns or throws. *)
Inductive Exn (A : Type) :=
| Ok (a : A)
| Throw (e : Error).
Arguments Ok {A} a.
Arguments Throw {A} e.

Definition bind {A B} (m : Exn A) (k : A -> Exn B) : Exn B :=
  match m with Ok a => k a | Throw e => Throw e end.

(** [try { body } catch (e) { handler(e) }]. *)
Definition try_catch {A} (body : Exn A) (handler : Error -> Exn A) : Exn A :=
  match body with Ok a => Ok a | Throw e => handler e end.

(** [xs.map(f)] where [f] may throw: the first throw aborts the map. *)
Fixpoint mapE {A B} (f : A -> Exn B) (xs : list A) : Exn (list B) :=
  match xs with
  | [] => Ok []
  | x :: xs' => bind (f x) (fun y => bind (mapE f xs') (fun ys => Ok (y :: ys)))
  end.

(** A value produced by [JSON.parse].  Numbers are IEEE 754 doubles; the
    keys of a parsed object are distinct. *)
#[warnings="-register-all"]
Inductive json :=
| JNull
| JBool (b : bool)
| JNum (x : float)
| JStr (s : jsstring)
| JArr (items : list json)
| JObj (fields : list (jsstring * json)).

(** [Boolean(v)]; [None] is [undefined]. *)
Definition truthy_json (v : option json) : bool :=
  match v with
  | None | Some JNull => false
  | Some (JBool b) => b
  | Some (JNum x) => negb (PrimFloat.is_zero x || PrimFloat.is_nan x)
  | Some (JStr s) => truthy s
  | Some (JArr _) | Some (JObj _) => true
  end.

Fixpoint lookup_field (k : jsstring) (fields : list (jsstring * json)) : option json :=
  match fields with
  | [] => None
  | (k', v) :: rest => if decide (k' = k) then Some v else lookup_field k rest
  end.

(** [v.k] for one of the property names the sources read from parsed
    data ([messages], [content], [role]): a [TypeError] on [null], the
    own property of an object, and [undefined] on numbers, booleans,
    strings and arrays, which have no property of these names. *)
Definition get (v : json) (k : jsstring) : Exn (option json) :=
  match v with
  | JNull => Throw TypeError
  | JObj fields => Ok (lookup_field k fields)
  | _ => Ok None
  end.

End JS.

Import JS.

#[global] Instance Exn_bind : MBind Exn := fun A B k m => JS.bind m k.

(** ** types.ts *)

Module Types.

Record ImageData := { base64 : jsstring; mimeType : jsstring }.

(** ['user' | 'model'] *)
Inductive Role := role_user | role_model.

Record ChatMessage := { role : Role; content : jsstring }.

(** ['gemini-2.5-pro' | 'gemini-2.5-flash'] *)
Inductive ModelName := gemini_2_5_pro | gemini_2_5_flash.

Record ChatSession := {
  id : jsstring;
  title : jsstring;
  messages : list ChatMessage;
  model : ModelName
}.

(** [Source] is declared here too; its record is in [Gateway], next to
    the one function that builds it. *)

#[global] Instance Role_eq_dec : EqDecision Role.
Proof. solve_decision. Defined.
#[global] Instance ModelName_eq_dec : EqDecision ModelName.
Proof. solve_decision. Defined.
#[global] Instance ChatMessage_eq_dec : EqDecision ChatMessage.
Proof. solve_decision. Defined.
#[global] Instance ChatSession_eq_dec : EqDecision ChatSession.
Proof. solve_decision. Defined.

End Types.

Import Types.

(** ** The [App] component: the session list and its handlers *)

Module App.

Record State := {
  chatHistory : list ChatSession;
  activeChatId : option jsstring
}.

(** [setChatHistory(prev => [newSession, ...prev]);
     setActiveChatId(newSession.id)] *)
Definition handleAddNewSession (newSession : ChatSession) (st : State) : State :=
  {| chatHistory := newSession :: chatHistory st;
     activeChatId := Some (id newSession) |}.

(** [setChatHistory(prev => prev.map(session =>
       session.id === updatedSession.id ? updatedSession : session))] *)
Definition handleUpdateSession (updatedSession : ChatSession) (st : State) : State :=
  {| chatHistory :=
       (fun session =>
          if decide (id session = id updatedSession) then updatedSession else session)
         <$> chatHistory st;
     activeChatId := activeChatId st |}.

(** [chatHistory.find(session => session.id === activeChatId) || null];
    no [id] is [===] to a [null] [activeChatId]. *)
Definition activeChatSession (st : State) : option ChatSession :=
  match activeChatId st with
  | Some a => find (fun session => bool_decide (id session = a)) (chatHistory st)
  | None => None
  end.

End App.

(** ** The [Chatbot] component *)

Module Chatbot.

(** The handle returned by [ai.chats.create({ model, config, history })]. *)
Record Chat := { chat_model : ModelName; history : list ChatMessage }.

(** The [useState] cells of the component. *)
Record State := {
  chat : option Chat;
  messages : list ChatMessage;
  input : jsstring;
  isLoading : bool;
  error : option jsstring;
  useProModel : bool
}.

(** The text shown for an error without a message (handleSubmit). *)
Definition unexpectedErrorText : jsstring :=
  [1582; 1591; 1575; 1740; 32; 1594; 1740; 1585; 1605; 1606; 1578; 1592;
   1585; 1607; 8204; 1575; 1740; 32; 1585; 1582; 32; 1583; 1575; 1583; 46].

(** The text shown when the chat could not be set up (initializeChat). *)
Definition chatInitErrorText : jsstring :=
  [1582; 1591; 1575; 32; 1583; 1585; 32; 1585; 1575; 1607; 8204; 1575;
   1606; 1583; 1575; 1586; 1740; 32; 1670; 1578; 46].

(** The variables a running [handleSubmit] closes over: the constants
    [newMessages] and [currentInput], the accumulator [fullResponse], and
    the props and state of the render that created the handler. *)
Record Submission := {
  newMessages : list ChatMessage;
  currentInput : jsstring;
  fullResponse : jsstring;
  session : option ChatSession;
  proModel : bool
}.

(** What resumes the component after a submission:
    - [Timeout]: the 10 ms timer set by [handleSubmit] fires;
    - [Chunk text]: the stream yields a chunk whose [chunk.text] is
      [text] ([None] is [undefined]);
    - [StreamEnd now]: the stream is exhausted; [now] is
      [Date.now().toString()] at that moment;
    - [StreamError message]: [sendMessageStream] or the stream throws an
      error whose [message] is [message]. *)
Inductive Event :=
| Timeout
| Chunk (text : option jsstring)
| StreamEnd (now : jsstring)
| StreamError (message : option jsstring).

(** The application around one [Chatbot]: [inflight] is the suspended
    [handleSubmit], [timers] counts the pending placeholder timers, and
    [crashed] records an exception that escaped a state updater. *)
Record World := {
  app : App.State;
  bot : State;
  inflight : option Submission;
  timers : nat;
  crashed : option Error
}.

(** [acc += text]: [undefined] is converted to the string "undefined". *)
Definition append_text (acc : jsstring) (text : option jsstring) : jsstring :=
  acc ++ match text with Some t => t | None => lit "undefined" end.

Definition with_fullResponse (full : jsstring) (sub : Submission) : Submission :=
  {| newMessages := newMessages sub; currentInput := currentInput sub;
     fullResponse := full; session := session sub; proModel := proModel sub |}.

(** [currentInput.substring(0, 30) + (currentInput.length > 30 ? '...' : '')] *)
Definition sessionTitle (currentInput : jsstring) : jsstring :=
  substring0 30 currentInput
    ++ (if (30 <? length currentInput)%nat then lit "..." else []).

Section WithSDK.

(** [new GoogleGenAI({ apiKey })] followed by [ai.chats.create]: the
    SDK calls of [initializeChat], which may throw. *)
Variable createChat : ModelName -> list ChatMessage -> Exn Chat.

(** [initializeChat(model, history)]; nothing in it awaits, so it runs
    to its end within the call. *)
Definition initializeChat (m : ModelName) (h : list ChatMessage) (st : State) : State :=
  match createChat m h with
  | Ok newChat =>
      {| chat := Some newChat; messages := messages st; input := input st;
         isLoading := false; error := None; useProModel := useProModel st |}
  | Throw _ =>
      {| chat := chat st; messages := messages st; input := input st;
         isLoading := false; error := Some chatInitErrorText;
         useProModel := useProModel st |}
  end.

(** The effect on [[session]]:
    [setMessages(session?.messages || []);
     setUseProModel(session?.model === 'gemini-2.5-pro');
     initializeChat(session?.model || 'gemini-2.5-flash',
                    session?.messages || [])]. *)
Definition sessionEffect (s : option ChatSession) (st : State) : State :=
  let msgs := match s with Some x => Types.messages x | None => [] end in
  let m := match s with Some x => Types.model x | None => gemini_2_5_flash end in
  initializeChat m msgs
    {| chat := chat st; messages := msgs; input := input st;
       isLoading := isLoading st; error := error st;
       useProModel := bool_decide (m = gemini_2_5_pro) |}.

(** [handleSubmit] up to its first [await]; [(st, None)] is the early
    [return]. *)
Definition handleSubmit (sess : option ChatSession) (st : State)
  : State * option Submission :=
  if negb (truthy (trim (input st))) || isLoading st || negb (bool_decide (is_Some (chat st)))
  then (st, None)
  else
    let userMessage := {| role := role_user; content := input st |} in
    let newMessages := messages st ++ [userMessage] in
    ({| chat := chat st; messages := newMessages; input := [];
        isLoading := true; error := None; useProModel := useProModel st |},
     Some {| newMessages := newMessages; currentInput := input st;
             fullResponse := []; session := sess;
             proModel := useProModel st |}).

(** The updater of the 10 ms timer:
    [prev => [...prev, { role: 'model', content: '' }]]. *)
Definition addPlaceholder (prev : list ChatMessage) : list ChatMessage :=
  prev ++ [{| role := role_model; content := [] |}].

(** The updater run for each chunk; reading [role] of the last element
    of an empty array throws. *)
Definition showResponse (fullResponse : jsstring) (prev : list ChatMessage)
  : Exn (list ChatMessage) :=
  match last prev with
  | None => Throw TypeError
  | Some lastMessage =>
      match role lastMessage with
      | role_model =>
          Ok (slice0_neg 1 prev
                ++ [{| role := role lastMessage; content := fullResponse |}])
      | role_user => Ok prev
      end
  end.

Definition set_messages (msgs : list ChatMessage) (st : State) : State :=
  {| chat := chat st; messages := msgs; input := input st;
     isLoading := isLoading st; error := error st;
     useProModel := useProModel st |}.

(** The form's [onSubmit]. *)
Definition submit (w : World) : World :=
  match handleSubmit (App.activeChatSession (app w)) (bot w) with
  | (_, None) => w
  | (st, Some sub) =>
      {| app := app w; bot := st; inflight := Some sub;
         timers := S (timers w); crashed := crashed w |}
  end.

(** The rest of [handleSubmit], one resumption at a time. *)
Definition step (w : World) (ev : Event) : World :=
  match ev, inflight w with
  | Timeout, _ =>
      match timers w with
      | O => w
      | S n =>
          {| app := app w;
             bot := set_messages (addPlaceholder (messages (bot w))) (bot w);
             inflight := inflight w; timers := n; crashed := crashed w |}
      end
  | Chunk text, Some sub =>
      let full := append_text (fullResponse sub) text in
      let sub' := with_fullResponse full sub in
      match showResponse full (messages (bot w)) with
      | Ok msgs =>
          {| app := app w; bot := set_messages msgs (bot w);
             inflight := Some sub'; timers := timers w;
             crashed := crashed w |}
      | Throw e =>
          {| app := app w; bot := bot w; inflight := Some sub';
             timers := timers w; crashed := Some e |}
      end
  | StreamEnd now, Some sub =>
      let updatedMessages :=
        newMessages sub ++ [{| role := role_model; content := fullResponse sub |}] in
      let app' :=
        match session sub with
        | Some s =>
            App.handleUpdateSession
              {| id := id s; title := title s;
                 Types.messages := updatedMessages;
                 model := Types.model s |} (app w)
        | None =>
            App.handleAddNewSession
              {| id := now; title := sessionTitle (currentInput sub);
                 Types.messages := updatedMessages;
                 model := if proModel sub then gemini_2_5_pro
                          else gemini_2_5_flash |} (app w)
        end in
      (* finally: setIsLoading(false) *)
      let st := {| chat := chat (bot w); messages := messages (bot w);
                   input := input (bot w); isLoading := false;
                   error := error (bot w);
                   useProModel := useProModel (bot w) |} in
      (* The effect on [[session]] runs when the next render passes a
         [session] prop that is another object: always for a new
         session, and for an update when the session written is the
         active one, which [map] has then replaced by a new object. *)
      let replaced :=
        match session sub with
        | Some s =>
            bool_decide (id <$> App.activeChatSession (app w) = Some (id s))
        | None => true
        end in
      let st' :=
        if replaced then sessionEffect (App.activeChatSession app') st
        else st in
      {| app := app'; bot := st'; inflight := None; timers := timers w;
         crashed := crashed w |}
  | StreamError message, Some sub =>
      {| app := app w;
         bot := {| chat := chat (bot w);
                   messages := slice0_neg 2 (messages (bot w));
                   input := input (bot w); isLoading := false;
                   error := Some (match message with
                                  | Some m => if truthy m then m
                                              else unexpectedErrorText
                                  | None => unexpectedErrorText
                                  end);
                   useProModel := useProModel (bot w) |};
         inflight := None; timers := timers w; crashed := crashed w |}
  | _, None => w
  end.

Definition run (w : World) (evs : list Event) : World := foldl step w evs.

(** The resumptions of one submission whose stream yields [chunks] and
    then ends with [final], the timer firing after the first [k]
    chunks, or after [final] when there are fewer than [k]. *)
Definition schedule (k : nat) (chunks : list (option jsstring)) (final : Event)
  : list Event :=
  if (k <=? length chunks)%nat
  then (Chunk <$> take k chunks) ++ Timeout :: (Chunk <$> drop k chunks) ++ [final]
  else (Chunk <$> chunks) ++ [final; Timeout].

End WithSDK.

(** The guard of [handleSubmit], as a proposition. *)
Definition accepts (st : State) : Prop :=
  truthy (trim (input st)) = true /\ isLoading st = false /\ is_Some (chat st).

Definition userTurn (st : State) : ChatMessage :=
  {| Types.role := role_user; Types.content := input st |}.

Definition modelTurn (text : jsstring) : ChatMessage :=
  {| Types.role := role_model; Types.content := text |}.

(** The closure of an accepted submission. *)
Definition submitted (w : World) : Submission :=
  {| newMessages := messages (bot w) ++ [userTurn (bot w)];
     currentInput := input (bot w); fullResponse := [];
     session := App.activeChatSession (app w);
     proModel := useProModel (bot w) |}.

(** The component right after an accepted submission. *)
Definition streaming (st : State) : State :=
  {| chat := chat st; messages := messages st ++ [userTurn st]; input := [];
     isLoading := true; error := None; useProModel := useProModel st |}.

End Chatbot.

(** ** Durable storage: [usePersistentState] and the chat history effect *)

Module Storage.

(** A loaded turn: [content] is whatever truthy value was stored (the
    cast [as ChatMessage] checks nothing), [role] one of the two roles. *)
Record LoadedMessage := { content : json; role : Role }.

(** A loaded session, [{ ...session, messages }]: the own properties of
    the stored value [spread], with [messages] replaced. *)
Record LoadedSession := { spread : json; messages : list LoadedMessage }.

Section WithPlatform.

(** [JSON.parse], which throws on malformed text, [JSON.stringify], and
    whether [localStorage] has room to store a value under a key. *)
Variable JSON_parse : jsstring -> Exn json.
Variable JSON_stringify : json -> jsstring.
Variable hasRoom : gmap jsstring jsstring -> jsstring -> jsstring -> bool.

(** [localStorage.getItem(key)]; [None] is [null]. *)
Definition getItem (ls : gmap jsstring jsstring) (key : jsstring) : option jsstring :=
  ls !! key.

(** [localStorage.setItem(key, value)]. *)
Definition setItem (ls : gmap jsstring jsstring) (key value : jsstring)
  : Exn (gmap jsstring jsstring) :=
  if hasRoom ls key value then Ok (<[key := value]> ls)
  else Throw QuotaExceededError.

(** The initializer passed to [useState] in [usePersistentState]. *)
Definition usePersistentState_init (ls : gmap jsstring jsstring)
    (key : jsstring) (defaultValue : json) : Exn json :=
  try_catch
    (match getItem ls key with
     | Some storedValue =>
         if truthy storedValue then JSON_parse storedValue else Ok defaultValue
     | None => Ok defaultValue
     end)
    (fun _ => Ok defaultValue).

(** The effect on [[key, state]] of [usePersistentState]; it runs after
    every render in which [state] changed. *)
Definition usePersistentState_effect (ls : gmap jsstring jsstring)
    (key : jsstring) (state : json) : Exn (gmap jsstring jsstring) :=
  try_catch (setItem ls key (JSON_stringify state)) (fun _ => Ok ls).

(** The object built for each stored message. *)
Definition validMessage (msg : json) : Exn LoadedMessage :=
  c ← get msg (lit "content");
  r ← get msg (lit "role");
  Ok {| content := if truthy_json c then default (JStr []) c else JStr [];
        role := match r with
                | Some (JStr s) =>
                    if decide (s = lit "user") then role_user
                    else if decide (s = lit "model") then role_model
                    else role_user
                | _ => role_user
                end |}.

(** The object built for each stored session. *)
Definition validSession (session : json) : Exn LoadedSession :=
  m ← get session (lit "messages");
  msgs ← match m with
          | Some (JArr items) =>
              l ← mapE validMessage items;
              Ok (List.filter (fun msg => truthy_json (Some (content msg))) l)
          | _ => Ok []
          end;
  Ok {| spread := session; messages := msgs |}.

(** The first effect of [App]: [Some validHistory] when it calls
    [setChatHistory(validHistory)], [None] when it leaves the state as
    it is. *)
Definition loadChatHistory (ls : gmap jsstring jsstring)
  : Exn (option (list LoadedSession)) :=
  try_catch
    (match getItem ls (lit "gemini-chat-history") with
     | Some savedHistory =>
         if truthy savedHistory then
           parsedHistory ← JSON_parse savedHistory;
           match parsedHistory with
           | JArr sessions =>
               validHistory ← mapE validSession sessions;
               Ok (Some validHistory)
           | _ => Ok None
           end
         else Ok None
     | None => Ok None
     end)
    (fun _ => Ok None).

End WithPlatform.

(** The turns the specification asks for, in its own words: a turn with
    empty content is dropped, a turn with a role that is neither "user"
    nor "model" becomes a "user" turn. *)
Definition spec_role (msg : json) : Role :=
  match msg with
  | JObj fields =>
      match lookup_field (lit "role") fields with
      | Some (JStr s) => if decide (s = lit "model") then role_model else role_user
      | _ => role_user
      end
  | _ => role_user
  end.

Definition spec_turn (msg : json) : option LoadedMessage :=
  match msg with
  | JObj fields =>
      match lookup_field (lit "content") fields with
      | Some c =>
          if truthy_json (Some c)
          then Some {| content := c; role := spec_role msg |}
          else None
      | None => None
      end
  | _ => None
  end.

Definition spec_turns (session : json) : list LoadedMessage :=
  match session with
  | JObj fields =>
      match lookup_field (lit "messages") fields with
      | Some (JArr items) => omap spec_turn items
      | _ => []
      end
  | _ => []
  end.

(** Stored data the load effect gets through: no session and no turn is
    [null] (reading a property of [null] throws, and the [catch] then
    abandons the whole load). *)
Definition noNull (session : json) : Prop :=
  session <> JNull
  /\ forall fields items,
       session = JObj fields ->
       lookup_field (lit "messages") fields = Some (JArr items) ->
       Forall (fun msg => msg <> JNull) items.

(** A codec for the three JSON keywords, enough to run the store on
    concrete values. *)
Definition parse_keyword (s : jsstring) : Exn json :=
  if decide (s = lit "null") then Ok JNull
  else if decide (s = lit "true") then Ok (JBool true)
  else if decide (s = lit "false") then Ok (JBool false)
  else Throw SyntaxError.

Definition stringify_keyword (v : json) : jsstring :=
  match v with
  | JBool true => lit "true"
  | JBool false => lit "false"
  | _ => lit "null"
  end.

End Storage.

(** ** The [ImageUploader] component *)

Module ImageUploader.

(** A [File] as the handler sees it: its [type] and its octets. *)
Record File := { type : jsstring; octets : list N }.

(** The base64 alphabet: A-Z, a-z, 0-9, + and /. *)
Definition b64char (i : N) : N :=
  if i <? 26 then 65 + i
  else if i <? 52 then 97 + (i - 26)
  else if i <? 62 then 48 + (i - 52)
  else if i =? 62 then 43 else 47.

(** Base64 with padding (RFC 4648), the encoding of a data URL. *)
Fixpoint base64_encode (bs : list N) : jsstring :=
  match bs with
  | [] => []
  | [a] => [b64char (a / 4); b64char ((a mod 4) * 16); 61; 61]
  | [a; b] =>
      [b64char (a / 4); b64char ((a mod 4) * 16 + b / 16);
       b64char ((b mod 16) * 4); 61]
  | a :: b :: c :: rest =>
      b64char (a / 4) :: b64char ((a mod 4) * 16 + b / 16)
        :: b64char ((b mod 16) * 4 + c / 64) :: b64char (c mod 64)
        :: base64_encode rest
  end.

(** [reader.result] after [reader.readAsDataURL(file)] (File API): a
    data URL with the file's type, or application/octet-stream when the
    type is empty. *)
Definition readAsDataURL (file : File) : jsstring :=
  lit "data:"
    ++ (if truthy (type file) then type file else lit "application/octet-stream")
    ++ lit ";base64," ++ base64_encode (octets file).

(** [\w] without the unicode and ignoreCase flags: [[A-Za-z0-9_]]. *)
Definition isWordChar (c : N) : bool :=
  ((48 <=? c) && (c <=? 57)) || ((65 <=? c) && (c <=? 90)) || (c =? 95)
  || ((97 <=? c) && (c <=? 122)).

(** [.] matches every code unit but the line terminators. *)
Definition isLineTerminator (c : N) : bool :=
  (c =? 10) || (c =? 13) || (c =? 8232) || (c =? 8233).

Fixpoint stripPrefix (p s : jsstring) : option jsstring :=
  match p, s with
  | [], _ => Some s
  | a :: p', b :: s' => if a =? b then stripPrefix p' s' else None
  | _ :: _, [] => None
  end.

(** The longest prefix of word characters, and the rest. *)
Fixpoint spanWord (s : jsstring) : jsstring * jsstring :=
  match s with
  | c :: s' =>
      if isWordChar c then let '(w, r) := spanWord s' in (c :: w, r)
      else ([], s)
  | [] => ([], [])
  end.

(** [base64String.match(re)], where the regular expression [re] of the
    source is, piece by piece: the anchor [^], [data:], a first group of
    [image/] and [\w+], then [;base64,], a second group of any number of
    [.], and the anchor [$].  The result is the two groups of the match,
    or [None] for [null].  The greedy [\w+] takes the whole run of word
    characters, and giving some back cannot help: the next thing to
    match is [;], which is no word character. *)
Definition matchDataUrl (base64String : jsstring) : option (jsstring * jsstring) :=
  r0 ← stripPrefix (lit "data:") base64String;
  r1 ← stripPrefix (lit "image/") r0;
  let '(w, r2) := spanWord r1 in
  if truthy w then
    r3 ← stripPrefix (lit ";base64,") r2;
    if forallb (fun c => negb (isLineTerminator c)) r3
    then Some (lit "image/" ++ w, r3) else None
  else None.

(** What the handler does with the file: it hands an image to
    [onImageSelect], or shows the "invalid file format" alert. *)
Inductive Outcome :=
| ImageSelected (image : ImageData)
| InvalidFormatAlert.

(** [reader.onloadend]; the groups of a failed match are [undefined]. *)
Definition onloadend (base64String : jsstring) : Outcome :=
  match matchDataUrl base64String with
  | Some (mimeType, base64Data) =>
      if truthy base64Data && truthy mimeType
      then ImageSelected {| base64 := base64Data; Types.mimeType := mimeType |}
      else InvalidFormatAlert
  | None => InvalidFormatAlert
  end.

(** [handleFileChange] with [event.target.files]; nothing happens when
    no file was chosen. *)
Definition handleFileChange (files : list File) : option Outcome :=
  match files with
  | file :: _ => Some (onloadend (readAsDataURL file))
  | [] => None
  end.

(** The content types the specification lists (and the [accept]
    attribute of the file input, a hint to the file dialog). *)
Definition allowList : list jsstring :=
  [lit "image/png"; lit "image/jpeg"; lit "image/webp"].

End ImageUploader.

(** ** services/geminiService.ts *)

Module Gateway.

(** The provider's replies, as the SDK types them; an optional property
    is an [option]. *)
Module SDK.
Record Blob := { data : jsstring; mimeType : jsstring }.
Record Part := { inlineData : option Blob; text : option jsstring }.
Record Content := { parts : option (list Part) }.
Record Web := { uri : option jsstring; title : option jsstring }.
Record GroundingChunk := { web : option Web }.
Record GroundingMetadata := { groundingChunks : option (list GroundingChunk) }.
Record Candidate := {
  content : option Content;
  groundingMetadata : option GroundingMetadata
}.
(** [response_text] is the [text] getter of the response. *)
Record GenerateContentResponse := {
  candidates : option (list Candidate);
  response_text : option jsstring
}.
Record Image := { imageBytes : option jsstring }.
Record GeneratedImage := { image : option Image }.
Record GenerateImagesResponse := { generatedImages : option (list GeneratedImage) }.
Record Video := { video_uri : option jsstring }.
Record GeneratedVideo := { video : option Video }.
Record GenerateVideosResponse := { generatedVideos : option (list GeneratedVideo) }.
Record Operation := { done : option bool; response : option GenerateVideosResponse }.
End SDK.

(** [Source] of types.ts.  Its fields are declared [string]; the records
    are built from [chunk.web?.uri] and [chunk.web?.title], which are
    [undefined] ([None]) where the provider left them out. *)
Record Source := { uri : option jsstring; title : option jsstring }.

Record SearchResult := { text : option jsstring; sources : list Source }.

(** What [animateImageWithVeo] does to the outside world, in order.
    [HasSelectedApiKey] and [OpenSelectKey] are the two calls of the host
    page, [window.aistudio?.hasSelectedApiKey()] and
    [window.aistudio?.openSelectKey()]; they are optional calls, which on
    a page without [aistudio] do nothing and give [undefined]. *)
Inductive Effect :=
| Sleep (ms : N)
| GetVideosOperation
| HasSelectedApiKey
| OpenSelectKey
| Fetch (url : jsstring).

(** The host page as one call of the gateway meets it: what each awaited
    call of [window.aistudio] resolves to or rejects with, and the key
    that is in place when they have returned.  [undefined], the value of
    an optional call on a page without [aistudio], is [Ok false] for the
    first field, which is read for its truthiness, and [Ok ()] for the
    dialogs. *)
Record Host := {
  (** [await aistudio?.hasSelectedApiKey()], l.7 *)
  hasSelectedApiKey : Exn bool;
  (** [await aistudio?.openSelectKey()] in [getApiKey], l.9 *)
  openSelectKey : Exn unit;
  (** [process.env.API_KEY] as l.12 reads it after these awaits *)
  API_KEY_after : option jsstring;
  (** [await aistudio?.openSelectKey()] in the [catch] of the polling
      loop, l.121 *)
  reopenSelectKey : Exn unit
}.

(** How far an asynchronous function got: it returned, it threw, or it
    is still awaiting a reply that has not come. *)
Inductive Progress (A : Type) :=
| Returned (a : A)
| Thrown (e : Error)
| Awaiting.
Arguments Returned {A} a.
Arguments Thrown {A} e.
Arguments Awaiting {A}.

Section WithEnv.

(** [process.env.API_KEY] as the first line of [getApiKey] reads it. *)
Variable API_KEY : option jsstring.

Variable host : Host.

(** [fetch(url)], [response.blob()] and [URL.createObjectURL(blob)]. *)
Variable fetchObjectURL : jsstring -> Exn jsstring.

(** The body of the first [if] of [getApiKey], l.7 to l.10: the host is
    asked whether a key is selected, and the dialog is opened when its
    answer is falsy. *)
Definition selectKey : list Effect * Exn unit :=
  match hasSelectedApiKey host with
  | Ok hasKey =>
      if negb hasKey then ([HasSelectedApiKey; OpenSelectKey], openSelectKey host)
      else ([HasSelectedApiKey], Ok ())
  | Throw e => ([HasSelectedApiKey], Throw e)
  end.

(** [process.env.API_KEY] as the second [if] and the [return] read it:
    nothing runs between the reads when the first one finds a key. *)
Definition keyAtRequest : option jsstring :=
  if truthy_opt API_KEY then API_KEY else API_KEY_after host.

(** [getApiKey]: the calls of the host it makes, and its result. *)
Definition getApiKey : list Effect * Exn jsstring :=
  let '(asked, selected) :=
    if negb (truthy_opt API_KEY) then selectKey else ([], Ok ()) in
  (asked,
   _ ← selected;
   match keyAtRequest with
   | Some k => if truthy k then Ok k else Throw CredentialUnavailable
   | None => Throw CredentialUnavailable
   end).

(** [getAiClient]; the client itself carries nothing the model needs.
    The four functions that use it are modelled by their result. *)
Definition getAiClient : Exn unit := _ ← getApiKey.2; Ok ().

(** [response.candidates?.[0]?.content?.parts || []] *)
Definition responseParts (response : SDK.GenerateContentResponse) : list SDK.Part :=
  default []
    (l ← SDK.candidates response; c ← head l; k ← SDK.content c; SDK.parts k).

(** The [for ... of] loop of [editImageWithPrompt] and the [throw]
    after it. *)
Fixpoint firstInlineData (ps : list SDK.Part) : Exn ImageData :=
  match ps with
  | part :: rest =>
      match SDK.inlineData part with
      | Some d => Ok {| base64 := SDK.data d; mimeType := SDK.mimeType d |}
      | None => firstInlineData rest
      end
  | [] => Throw NoImageProduced
  end.

(** [editImageWithPrompt]; [reply] is what [ai.models.generateContent]
    resolves to or rejects with. *)
Definition editImageWithPrompt (reply : Exn SDK.GenerateContentResponse)
  : Exn ImageData :=
  _ ← getAiClient;
  response ← reply;
  firstInlineData (responseParts response).

(** [generateImageWithPrompt]; [reply] is what
    [ai.models.generateImages] resolves to or rejects with.  Each read
    of [response.generatedImages[0].image.imageBytes] is unguarded. *)
Definition generateImageWithPrompt (reply : Exn SDK.GenerateImagesResponse)
  : Exn ImageData :=
  _ ← getAiClient;
  response ← reply;
  imgs ← match SDK.generatedImages response with
          | Some l => Ok l | None => Throw TypeError end;
  first ← match imgs with g :: _ => Ok g | [] => Throw TypeError end;
  img ← match SDK.image first with Some i => Ok i | None => Throw TypeError end;
  match SDK.imageBytes img with
  | Some base64ImageBytes =>
      if truthy base64ImageBytes
      then Ok {| base64 := base64ImageBytes; mimeType := lit "image/png" |}
      else Throw NoImageProduced
  | None => Throw NoImageProduced
  end.

(** [chunk => ({ uri: chunk.web?.uri, title: chunk.web?.title })] *)
Definition toSource (chunk : SDK.GroundingChunk) : Source :=
  {| uri := w ← SDK.web chunk; SDK.uri w;
     title := w ← SDK.web chunk; SDK.title w |}.

(** [s => s.uri && s.title] *)
Definition wellFormed (s : Source) : bool :=
  truthy_opt (uri s) && truthy_opt (title s).

(** [response.candidates?.[0]?.groundingMetadata?.groundingChunks
       ?.map(...).filter(...) || []] *)
Definition responseSources (response : SDK.GenerateContentResponse) : list Source :=
  default []
    (l ← SDK.candidates response; c ← head l; g ← SDK.groundingMetadata c;
     chunks ← SDK.groundingChunks g;
     Some (List.filter wellFormed (toSource <$> chunks))).

Definition searchWithGoogle (reply : Exn SDK.GenerateContentResponse)
  : Exn SearchResult :=
  _ ← getAiClient;
  response ← reply;
  Ok {| text := SDK.response_text response; sources := responseSources response |}.

(** [error.message?.includes('Requested entity was not found')]; only
    an error of the provider can carry that text. *)
Definition entityNotFound (e : Error) : bool :=
  match e with
  | Transport (Some m) => includes (lit "Requested entity was not found") m
  | _ => false
  end.

(** [!operation.done] *)
Definition notDone (operation : SDK.Operation) : bool :=
  negb (default false (SDK.done operation)).

(** The [while (!operation.done)] loop.  [replies] are the results of
    the successive [getVideosOperation] calls, as many as have come.  In
    the [catch] the key dialog is awaited before the [throw], so a
    dialog that is rejected is what the call throws. *)
Fixpoint pollLoop (operation : SDK.Operation) (replies : list (Exn SDK.Operation))
  : list Effect * Progress SDK.Operation :=
  if notDone operation then
    match replies with
    | Ok operation' :: rest =>
        let '(effs, p) := pollLoop operation' rest in
        (Sleep 5000 :: GetVideosOperation :: effs, p)
    | Throw error :: _ =>
        if entityNotFound error
        then ([Sleep 5000; GetVideosOperation; OpenSelectKey],
              match reopenSelectKey host with
              | Ok _ => Thrown CredentialInvalidated
              | Throw rejection => Thrown rejection
              end)
        else ([Sleep 5000; GetVideosOperation], Thrown error)
    | [] => ([Sleep 5000; GetVideosOperation], Awaiting)
    end
  else ([], Returned operation).

(** [operation.response?.generatedVideos?.[0]?.video?.uri] *)
Definition downloadLink (operation : SDK.Operation) : option jsstring :=
  r ← SDK.response operation; l ← SDK.generatedVideos r; g ← head l;
  v ← SDK.video g; SDK.video_uri v.

(** [animateImageWithVeo]; [started] is what [ai.models.generateVideos]
    resolves to or rejects with. *)
Definition animateImageWithVeo (started : Exn SDK.Operation)
    (replies : list (Exn SDK.Operation)) : list Effect * Progress jsstring :=
  let '(asked, key) := getApiKey in
  match key with
  | Throw e => (asked, Thrown e)
  | Ok apiKey =>
      match started with
      | Throw e => (asked, Thrown e)
      | Ok operation =>
          match pollLoop operation replies with
          | (effs, Returned final) =>
              match downloadLink final with
              | Some link =>
                  if truthy link then
                    let url := link ++ lit "&key=" ++ apiKey in
                    (asked ++ effs ++ [Fetch url],
                     match fetchObjectURL url with
                     | Ok objectUrl => Returned objectUrl
                     | Throw e => Thrown e
                     end)
                  else (asked ++ effs, Thrown NoVideoProduced)
              | None => (asked ++ effs, Thrown NoVideoProduced)
              end
          | (effs, Thrown e) => (asked ++ effs, Thrown e)
          | (effs, Awaiting) => (asked ++ effs, Awaiting)
          end
      end
  end.

End WithEnv.

(** [response.candidates?.[0]?.groundingMetadata?.groundingChunks], or no
    chunks where a link of the chain is [undefined]. *)
Definition groundingChunksOf (response : SDK.GenerateContentResponse)
  : list SDK.GroundingChunk :=
  match SDK.candidates response with
  | Some (c :: _) =>
      match SDK.groundingMetadata c with
      | Some g => default [] (SDK.groundingChunks g)
      | None => []
      end
  | _ => []
  end.

(** One round of the loop: the 5 second wait, then the status request. *)
Definition pollRound : list Effect := [Sleep 5000; GetVideosOperation].

Definition pollRounds (n : nat) : list Effect := concat (replicate n pollRound).

End Gateway.

(** ** Sample data *)

Module Samples.
Import Chatbot.

(** An SDK whose [chats.create] succeeds. *)
Definition createChat (m : ModelName) (h : list ChatMessage) : Exn Chat :=
  Ok {| chat_model := m; history := h |}.

Definition readyChat : Chat :=
  {| chat_model := gemini_2_5_flash; history := [] |}.

(** A fresh conversation with "Hello" typed into the input. *)
Definition freshWorld : World :=
  {| app := {| App.chatHistory := []; App.activeChatId := None |};
     bot := {| chat := Some readyChat; messages := []; input := lit "Hello";
               isLoading := false; error := None; useProModel := false |};
     inflight := None; timers := 0; crashed := None |}.

Definition earlierTurns : list ChatMessage :=
  [ {| Types.role := role_user; Types.content := lit "q1" |};
    {| Types.role := role_model; Types.content := lit "a1" |} ].

Definition earlierSession : ChatSession :=
  {| id := lit "1700000000000"; title := lit "q1";
     Types.messages := earlierTurns; model := gemini_2_5_flash |}.

(** An open session of two turns with "hi" typed into the input. *)
Definition openWorld : World :=
  {| app := {| App.chatHistory := [earlierSession];
               App.activeChatId := Some (lit "1700000000000") |};
     bot := {| chat := Some readyChat; messages := earlierTurns;
               input := lit "hi"; isLoading := false; error := None;
               useProModel := false |};
     inflight := None; timers := 0; crashed := None |}.

(** The same session while a reply to "hi" is streaming. *)
Definition streamingWorld : World := submit openWorld.

(** The reply of the specification's citation example. *)
Definition searchReply : Gateway.SDK.GenerateContentResponse :=
  {| Gateway.SDK.candidates :=
       Some [ {| Gateway.SDK.content := None;
                 Gateway.SDK.groundingMetadata :=
                   Some {| Gateway.SDK.groundingChunks :=
                     Some [ {| Gateway.SDK.web :=
                                 Some {| Gateway.SDK.uri := Some (lit "a");
                                         Gateway.SDK.title := Some [] |} |};
                            {| Gateway.SDK.web :=
                                 Some {| Gateway.SDK.uri := Some (lit "b");
                                         Gateway.SDK.title := Some (lit "T") |} |} ] |} |} ];
     Gateway.SDK.response_text := Some (lit "answer") |}.

(** A video handle before completion, and one completed with a link. *)
Definition runningOperation : Gateway.SDK.Operation :=
  {| Gateway.SDK.done := None; Gateway.SDK.response := None |}.

Definition finishedOperation : Gateway.SDK.Operation :=
  {| Gateway.SDK.done := Some true;
     Gateway.SDK.response :=
       Some {| Gateway.SDK.generatedVideos :=
                 Some [ {| Gateway.SDK.video :=
                             Some {| Gateway.SDK.video_uri :=
                                       Some (lit "https://videos/1?alt=media") |} |} ] |} |}.

(** A stored history of one session with four turns: a system turn, a
    turn without content, a user turn and a model turn. *)
Definition storedTurn (r c : string) : json :=
  JObj [(lit "role", JStr (lit r)); (lit "content", JStr (lit c))].

Definition storedSession : json :=
  JObj [ (lit "id", JStr (lit "1700000000000"));
         (lit "title", JStr (lit "old"));
         (lit "messages",
          JArr [ storedTurn "system" "be brief"; storedTurn "user" "";
                 storedTurn "user" "q1"; storedTurn "model" "a1" ]);
         (lit "model", JStr (lit "gemini-2.5-flash")) ].

Definition storedHistory : gmap jsstring jsstring :=
  {[ lit "gemini-chat-history" := lit "[...]" ]}.

(** A [JSON.parse] that knows the text stored above. *)
Definition parseStored (s : jsstring) : Exn json :=
  if decide (s = lit "[...]") then Ok (JArr [storedSession])
  else Storage.parse_keyword s.

(** Three files: a PNG and a GIF of three octets each, and a text file. *)
Definition pngFile : ImageUploader.File :=
  {| ImageUploader.type := lit "image/png"; ImageUploader.octets := [137; 80; 78] |}.

Definition gifFile : ImageUploader.File :=
  {| ImageUploader.type := lit "image/gif"; ImageUploader.octets := [71; 73; 70] |}.

Definition textFile : ImageUploader.File :=
  {| ImageUploader.type := lit "text/plain"; ImageUploader.octets := [104; 105] |}.

(** A download that succeeds. *)
Definition fetchObjectURL (url : jsstring) : Exn jsstring := Ok (lit "blob:1").

(** A host page on which no key is selected, and whose dialog is closed
    without a choice. *)
Definition host : Gateway.Host :=
  {| Gateway.hasSelectedApiKey := Ok false; Gateway.openSelectKey := Ok ();
     Gateway.API_KEY_after := None; Gateway.reopenSelectKey := Ok () |}.

End Samples.

(** ** The other handlers of [App] *)

Module AppHandlers.
Import App.

(** [handleNewChat]: [setActiveChatId(null)] (the feature switch and the
    sidebar flag are display state only). *)
Definition handleNewChat (st : State) : State :=
  {| chatHistory := chatHistory st; activeChatId := None |}.

(** [handleSelectChat(id)]: [setActiveChatId(id)]. *)
Definition handleSelectChat (chatId : jsstring) (st : State) : State :=
  {| chatHistory := chatHistory st; activeChatId := Some chatId |}.

(** [handleDeleteChat(id)]:
    [setChatHistory(prev => prev.filter(session => session.id !== id));
     if (activeChatId === id) setActiveChatId(null)]. *)
Definition handleDeleteChat (chatId : jsstring) (st : State) : State :=
  {| chatHistory :=
       List.filter (fun session => negb (bool_decide (id session = chatId)))
         (chatHistory st);
     activeChatId :=
       if decide (activeChatId st = Some chatId) then None else activeChatId st |}.

End AppHandlers.

(** ** The other handlers of [Chatbot] *)

Module ChatbotHandlers.
Import Chatbot.

(** The [onChange] of the input: [setInput(e.target.value)]. *)
Definition setInput (value : jsstring) (w : World) : World :=
  {| app := app w;
     bot := {| chat := chat (bot w); messages := messages (bot w);
               input := value; isLoading := isLoading (bot w);
               error := error (bot w); useProModel := useProModel (bot w) |};
     inflight := inflight w; timers := timers w; crashed := crashed w |}.

(** The resumptions that come while a stream is open: a chunk, or the
    timer. *)
Definition midStream (ev : Event) : bool :=
  match ev with
  | Timeout | Chunk _ => true
  | StreamEnd _ | StreamError _ => false
  end.

(** The world while the stream of the submission [sub] is open: the
    session list [a] is untouched, the component is loading, [earlier]
    and the user turn [u] are shown as they were, and everything shown
    after them is an assistant turn. *)
Definition streamingOn (a : App.State) (earlier : list ChatMessage)
    (u : ChatMessage) (sub : Submission) (w : World) : Prop :=
  app w = a
  /\ isLoading (bot w) = true
  /\ (exists full, inflight w = Some (with_fullResponse full sub))
  /\ exists shown,
       messages (bot w) = earlier ++ u :: shown
       /\ Forall (fun m => Types.role m = role_model) shown.

(** [chunk.text] as [+=] sees it. *)
Definition textOf (text : option jsstring) : jsstring :=
  default (lit "undefined") text.

Section WithSDK.

Variable createChat : ModelName -> list ChatMessage -> Exn Chat.

(** [handleModelChange(isPro)], the [onChange] of the checkbox:
    [setUseProModel(isPro); initializeChat(newModel, messages);
     if (session) onUpdate({ ...session, model: newModel })].
    The [session] prop is the active session, so the update replaces it
    by a new object and the effect on [[session]] runs after it. *)
Definition handleModelChange (isPro : bool) (w : World) : World :=
  let newModel := if isPro then gemini_2_5_pro else gemini_2_5_flash in
  let st1 :=
    initializeChat createChat newModel (messages (bot w))
      {| chat := chat (bot w); messages := messages (bot w);
         input := input (bot w); isLoading := isLoading (bot w);
         error := error (bot w); useProModel := isPro |} in
  match App.activeChatSession (app w) with
  | Some s =>
      let app' :=
        App.handleUpdateSession
          {| id := id s; title := title s; Types.messages := Types.messages s;
             model := newModel |} (app w) in
      {| app := app';
         bot := sessionEffect createChat (App.activeChatSession app') st1;
         inflight := inflight w; timers := timers w; crashed := crashed w |}
  | None =>
      {| app := app w; bot := st1; inflight := inflight w; timers := timers w;
         crashed := crashed w |}
  end.

End WithSDK.

End ChatbotHandlers.

(** ** services/geminiService.ts: [analyzeImage] and the error texts *)

Module GatewayMore.
Import Gateway.

(** [analyzeImage]; [reply] is what [ai.models.generateContent] resolves
    to or rejects with, and the result is [response.text]. *)
Definition analyzeImage (API_KEY : option jsstring) (host : Host)
    (reply : Exn SDK.GenerateContentResponse) : Exn (option jsstring) :=
  _ ← getAiClient API_KEY host; response ← reply; Ok (SDK.response_text response).

(** "API_KEY environment variable is not set" *)
Definition credentialUnavailableText : jsstring :=
  lit "API_KEY environment variable is not set".

(** The text of [editImageWithPrompt] and [generateImageWithPrompt] for a
    reply without an image. *)
Definition noImageText : jsstring :=
  [1607; 1740; 1670; 32; 1578; 1589; 1608; 1740; 1585; 1740; 32; 1583; 1585;
   32; 1662; 1575; 1587; 1582; 32; 1578; 1608; 1604; 1740; 1583; 32; 1606;
   1588; 1583; 46].

(** The text of [animateImageWithVeo] for a finished operation without a
    video. *)
Definition noVideoText : jsstring :=
  [1587; 1575; 1582; 1578; 32; 1608; 1740; 1583; 1740; 1608; 32; 1576; 1575;
   32; 1588; 1705; 1587; 1578; 32; 1605; 1608; 1575; 1580; 1607; 32; 1588;
   1583; 46].

(** The text of [animateImageWithVeo] for a key that is no longer valid:
    "the API key is invalid, please select again and retry". *)
Definition invalidKeyText : jsstring :=
  [1705; 1604; 1740; 1583; 32; 65; 80; 73; 32; 1606; 1575; 1605; 1593; 1578;
   1576; 1585; 32; 1575; 1587; 1578; 46; 32; 1604; 1591; 1601; 1575; 1611;
   32; 1583; 1608; 1576; 1575; 1585; 1607; 32; 1575; 1606; 1578; 1582; 1575;
   1576; 32; 1705; 1606; 1740; 1583; 32; 1608; 32; 1605; 1580; 1583; 1583;
   1575; 1611; 32; 1578; 1604; 1575; 1588; 32; 1606; 1605; 1575; 1740; 1740;
   1583; 46].

Section WithEngine.

(** The [message] the engine gives its own errors ([TypeError],
    [SyntaxError], [QuotaExceededError]). *)
Variable engineMessage : Error -> option jsstring.

(** [err.message] *)
Definition messageOf (e : Error) : option jsstring :=
  match e with
  | CredentialUnavailable => Some credentialUnavailableText
  | NoImageProduced => Some noImageText
  | NoVideoProduced => Some noVideoText
  | CredentialInvalidated => Some invalidKeyText
  | Transport m => m
  | TypeError | SyntaxError | QuotaExceededError => engineMessage e
  end.

End WithEngine.

End GatewayMore.

(** ** The [VideoAnimator] component *)

Module VideoAnimator.
Import Gateway GatewayMore.

(** The [useState] cells of the component ([prompt] and [aspectRatio] are
    kept by [usePersistentState]). *)
Record State := {
  image : option ImageData;
  prompt : jsstring;
  aspectRatio : jsstring;
  isLoading : bool;
  error : option jsstring;
  videoUrl : option jsstring;
  apiKeySelected : bool
}.

(** "Please upload an image." *)
Definition noImageSelectedText : jsstring :=
  [1604; 1591; 1601; 1575; 1611; 32; 1740; 1705; 32; 1578; 1589; 1608; 1740;
   1585; 32; 1570; 1662; 1604; 1608; 1583; 32; 1705; 1606; 1740; 1583; 46].

(** The words "select again" that [handleAnimate] looks for in a message. *)
Definition selectAgainText : jsstring :=
  [1583; 1608; 1576; 1575; 1585; 1607; 32; 1575; 1606; 1578; 1582; 1575; 1576;
   32; 1705; 1606; 1740; 1583].

Section WithEngine.

Variable engineMessage : Error -> option jsstring.

(** [handleSelectKey]: the key dialog, then [setApiKeySelected(true)].
    [dialog] is what [await aistudio?.openSelectKey()] gives; when it
    is rejected the function ends there and no cell is set. *)
Definition handleSelectKey (dialog : Exn unit) (st : State) : State * list Effect :=
  (match dialog with
   | Ok _ =>
       {| image := image st; prompt := prompt st; aspectRatio := aspectRatio st;
          isLoading := isLoading st; error := error st; videoUrl := videoUrl st;
          apiKeySelected := true |}
   | Throw _ => st
   end,
   [OpenSelectKey]).

(** [handleAnimate]; [outcome] is what the call of [animateImageWithVeo]
    does and how far it has got, [dialog] what the key dialog of
    [handleSelectKey] gives. *)
Definition handleAnimate (dialog : Exn unit)
    (outcome : list Effect * Progress jsstring) (st : State)
  : State * list Effect :=
  match image st with
  | None =>
      ({| image := image st; prompt := prompt st; aspectRatio := aspectRatio st;
          isLoading := isLoading st; error := Some noImageSelectedText;
          videoUrl := videoUrl st; apiKeySelected := apiKeySelected st |}, [])
  | Some _ =>
      if negb (apiKeySelected st) then handleSelectKey dialog st
      else
        match outcome with
        | (effs, Awaiting) =>
            ({| image := image st; prompt := prompt st;
                aspectRatio := aspectRatio st; isLoading := true;
                error := None; videoUrl := None;
                apiKeySelected := apiKeySelected st |}, effs)
        | (effs, Returned url) =>
            ({| image := image st; prompt := prompt st;
                aspectRatio := aspectRatio st; isLoading := false;
                error := None; videoUrl := Some url;
                apiKeySelected := apiKeySelected st |}, effs)
        | (effs, Thrown err) =>
            ({| image := image st; prompt := prompt st;
                aspectRatio := aspectRatio st; isLoading := false;
                error := Some (if truthy_opt (messageOf engineMessage err)
                               then default [] (messageOf engineMessage err)
                               else Chatbot.unexpectedErrorText);
                videoUrl := None;
                apiKeySelected :=
                  match messageOf engineMessage err with
                  | Some m => if includes selectAgainText m then false
                              else apiKeySelected st
                  | None => apiKeySelected st
                  end |}, effs)
        end
  end.

End WithEngine.

(** What the component renders.  Without a selected key it is the key
    panel alone, whose one button runs [handleSelectKey]; with one it is
    the animator: whether its animate button is enabled, the error text
    it displays, the video it plays, and whether the loading overlay is
    up. *)
Inductive View :=
| KeyPanel
| Animator (animateEnabled : bool) (errorDisplay : option jsstring)
    (video : option jsstring) (loadingOverlay : bool).

(** The [return] of the component:
    [if (!apiKeySelected) return (the key panel)], and in the animator
    [disabled={!image || isLoading}] on the animate button,
    [{error && <ErrorDisplay message={error} />}],
    [videoUrl ? <video src={videoUrl} /> : (a placeholder)] and
    [{isLoading && <LoadingOverlay />}]. *)
Definition render (st : State) : View :=
  if negb (apiKeySelected st) then KeyPanel
  else
    let noImage := match image st with Some _ => false | None => true end in
    Animator (negb (noImage || isLoading st))
      (if truthy_opt (error st) then error st else None)
      (if truthy_opt (videoUrl st) then videoUrl st else None)
      (isLoading st).

End VideoAnimator.

(** ** The audio decoding helpers of [SpeechGenerator] *)

Module Speech.

(** What [decodePcmData] gives: the samples of the one channel, the
    [RangeError] of [new Int16Array(buffer)] for a buffer of odd length,
    or the [NotSupportedError] of [ctx.createBuffer(1, 0, 24000)], a
    buffer of no frame. *)
Inductive Pcm :=
| Samples (channelData : list QArith_base.Q)
| RangeError
| NotSupportedError.

(** [decodeBase64]; [binaryString] is [atob(base64)], and a [Uint8Array]
    element keeps the low eight bits of what is stored in it. *)
Definition decodeBase64 (binaryString : jsstring) : list N :=
  (fun c => c mod 256) <$> binaryString.

(** The element of an [Int16Array] over two octets, low octet first (the
    byte order of the platforms browsers run on). *)
Definition int16 (lo hi : N) : Z :=
  let u := Z.of_N (lo + 256 * hi) in
  if (u <? 32768)%Z then u else (u - 65536)%Z.

Fixpoint int16s (octets : list N) : list Z :=
  match octets with
  | lo :: hi :: rest => int16 lo hi :: int16s rest
  | _ => []
  end.

(** [decodePcmData]: [dataInt16[i] / 32768.0] for every frame.  The
    quotient of a 16 bit integer by 2^15 is a binary fraction of at most
    16 bits, which a [Float32Array] element holds exactly, so the sample
    is this rational number. *)
Definition decodePcmData (data : list N) : Pcm :=
  if Nat.even (length data) then
    let dataInt16 := int16s data in
    let frameCount := length dataInt16 in
    if (frameCount =? 0)%nat then NotSupportedError
    else Samples ((fun v => QArith_base.Qmake v 32768) <$> dataInt16)
  else RangeError.

End Speech.

(** ** Startup of [App]: the two effects on the stored chat history *)

Module Startup.
Import Storage.

(** The decimal text of an array index. *)
Definition indexKey (i : nat) : jsstring :=
  lit (DecimalString.NilZero.string_of_uint (Nat.to_uint i)).

(** The own enumerable properties that [{ ...v }] copies. *)
Definition ownProps (v : json) : list (jsstring * json) :=
  match v with
  | JObj fields => fields
  | JArr items => imap (fun i x => (indexKey i, x)) items
  | JStr s => imap (fun i c => (indexKey i, JStr [c])) s
  | _ => []
  end.

(** [{ ...fields, k: v }]: an existing property keeps its place. *)
Fixpoint setProp (k : jsstring) (v : json) (fields : list (jsstring * json))
  : list (jsstring * json) :=
  match fields with
  | [] => [(k, v)]
  | (k', v') :: rest =>
      if decide (k' = k) then (k, v) :: rest else (k', v') :: setProp k v rest
  end.

Definition roleText (r : Role) : jsstring :=
  match r with role_user => lit "user" | role_model => lit "model" end.

Definition modelText (m : ModelName) : jsstring :=
  match m with
  | gemini_2_5_pro => lit "gemini-2.5-pro"
  | gemini_2_5_flash => lit "gemini-2.5-flash"
  end.

(** The object of a loaded turn, [{ content, role }]. *)
Definition loadedMessageValue (m : LoadedMessage) : json :=
  JObj [(lit "content", content m); (lit "role", JStr (roleText (role m)))].

(** The object of a loaded session, [{ ...session, messages }]. *)
Definition loadedSessionValue (s : LoadedSession) : json :=
  JObj (setProp (lit "messages") (JArr (loadedMessageValue <$> messages s))
          (ownProps (spread s))).

(** The object of a turn made by [handleSubmit], [{ role, content }]. *)
Definition messageValue (m : ChatMessage) : json :=
  JObj [(lit "role", JStr (roleText (Types.role m)));
        (lit "content", JStr (Types.content m))].

(** The object of a session made by [handleSubmit],
    [{ id, title, messages, model }]. *)
Definition sessionValue (s : ChatSession) : json :=
  JObj [(lit "id", JStr (id s)); (lit "title", JStr (title s));
        (lit "messages", JArr (messageValue <$> Types.messages s));
        (lit "model", JStr (modelText (model s)))].

(** What a session made by [handleSubmit] is expected to come back as
    after a reload: the stored object, with its turns of non-empty
    content. *)
Definition reloaded (s : ChatSession) : LoadedSession :=
  {| spread := sessionValue s;
     messages :=
       (fun m => {| content := JStr (Types.content m); role := Types.role m |})
         <$> List.filter (fun m => truthy (Types.content m)) (Types.messages s) |}.

(** Stored text that the load effect cannot use: it does not parse, it is
    no array, or a session or a turn in it is [null]. *)
Definition unloadable (parsed : Exn json) : Prop :=
  match parsed with
  | Throw _ => True
  | Ok (JArr sessions) =>
      In JNull sessions
      \/ exists fields items,
           In (JObj fields) sessions
           /\ lookup_field (lit "messages") fields = Some (JArr items)
           /\ In JNull items
  | Ok _ => True
  end.

Section WithPlatform.

Variable JSON_parse : jsstring -> Exn json.
Variable JSON_stringify : json -> jsstring.
Variable hasRoom : gmap jsstring jsstring -> jsstring -> jsstring -> bool.

(** The second effect of [App], on [[chatHistory]]:
    [localStorage.setItem('gemini-chat-history', JSON.stringify(chatHistory))]
    in a [try] whose [catch] only logs; [chatHistory] is the array of the
    session objects. *)
Definition saveChatHistory (ls : gmap jsstring jsstring) (chatHistory : list json)
  : gmap jsstring jsstring :=
  match setItem hasRoom ls (lit "gemini-chat-history")
          (JSON_stringify (JArr chatHistory)) with
  | Ok ls' => ls'
  | Throw _ => ls
  end.

(** Mounting [App].  Both effects run after the first render, in the
    order they are written and with the state of that render, the empty
    history: the first may call [setChatHistory], the second stores the
    empty history.  A call of [setChatHistory] gives a second render,
    after which the second effect runs again with the loaded history.
    The result is the history in the state and the storage. *)
Definition mount (ls : gmap jsstring jsstring)
  : list LoadedSession * gmap jsstring jsstring :=
  let loaded :=
    match loadChatHistory JSON_parse ls with
    | Ok o => o
    | Throw _ => None
    end in
  let ls1 := saveChatHistory ls [] in
  match loaded with
  | Some validHistory =>
      (validHistory, saveChatHistory ls1 (loadedSessionValue <$> validHistory))
  | None => ([], ls1)
  end.

End WithPlatform.

End Startup.

(** ** More sample data *)

Module MoreSamples.

(** A finished video handle without a video. *)
Definition emptyOperation : Gateway.SDK.Operation :=
  {| Gateway.SDK.done := Some true;
     Gateway.SDK.response := Some {| Gateway.SDK.generatedVideos := Some [] |} |}.

(** A reply of [generateImages] with one image. *)
Definition imagesReply : Gateway.SDK.GenerateImagesResponse :=
  {| Gateway.SDK.generatedImages :=
       Some [ {| Gateway.SDK.image :=
                   Some {| Gateway.SDK.imageBytes := Some (lit "iVBO") |} |} ] |}.

(** The error of a status request made with a key that is gone. *)
Definition entityNotFoundError : Error :=
  Transport (Some (lit "404: Requested entity was not found.")).

(** An engine whose own errors carry no message. *)
Definition engineMessage (e : Error) : option jsstring := None.

(** A host page on which the user picks a key in the dialog. *)
Definition hostWithKey : Gateway.Host :=
  {| Gateway.hasSelectedApiKey := Ok false; Gateway.openSelectKey := Ok ();
     Gateway.API_KEY_after := Some (lit "key"); Gateway.reopenSelectKey := Ok () |}.

Definition hostRejection : Error := Transport (Some (lit "The host is gone")).

(** A host page whose first call is rejected. *)
Definition rejectingHost : Gateway.Host :=
  {| Gateway.hasSelectedApiKey := Throw hostRejection;
     Gateway.openSelectKey := Ok ();
     Gateway.API_KEY_after := Some (lit "key"); Gateway.reopenSelectKey := Ok () |}.

(** The animator with an image chosen and a key selected. *)
Definition animatorReady : VideoAnimator.State :=
  {| VideoAnimator.image :=
       Some {| base64 := lit "iVBO"; mimeType := lit "image/png" |};
     VideoAnimator.prompt := lit "wave";
     VideoAnimator.aspectRatio := lit "16:9";
     VideoAnimator.isLoading := false;
     VideoAnimator.error := None;
     VideoAnimator.videoUrl := None;
     VideoAnimator.apiKeySelected := true |}.

(** A storage with room for everything. *)
Definition roomy (ls : gmap jsstring jsstring) (key value : jsstring) : bool := true.

(** The text under which the codec below knows the one-session history
    of [Samples.openWorld], and the codec. *)
Definition savedText : jsstring := lit "[saved]".

Definition stringifySaved (v : json) : jsstring :=
  match v with
  | JArr (_ :: _) => savedText
  | JArr [] => lit "[]"
  | _ => Storage.stringify_keyword v
  end.

Definition parseSaved (s : jsstring) : Exn json :=
  if decide (s = savedText)
  then Ok (JArr (Startup.sessionValue <$> [Samples.earlierSession]))
  else if decide (s = lit "[]") then Ok (JArr [])
  else Storage.parse_keyword s.

(** A storage whose chat history does not parse. *)
Definition brokenHistory : gmap jsstring jsstring :=
  {[ lit "gemini-chat-history" := lit "{oops" ]}.

End MoreSamples.

(** * Properties *)

(** ** Strings and arrays *)

Module JSFacts.

Lemma slice0_neg_app {A} (l tl : list A) :
  slice0_neg (length tl) (l ++ tl) = l.
Proof.
  unfold slice0_neg. rewrite length_app.
  replace (length l + length tl - length tl)%nat with (length l) by lia.
  by rewrite take_app_length.
Qed.

Lemma last_snoc' {A} (l : list A) (x : A) : last (l ++ [x]) = Some x.
Proof. by rewrite last_snoc. Qed.

Lemma substring0_short (n : nat) (s : jsstring) :
  (length s <= n)%nat -> substring0 n s = s.
Proof. intros H. unfold substring0. by apply take_ge. Qed.

End JSFacts.

(** ** The session list *)

Module AppFacts.
Import App.

(** Replacing the active session by one with the same [id] makes the
    replacement the active session. *)
Lemma active_after_update (st : State) (s s' : ChatSession) :
  activeChatSession st = Some s -> id s' = id s ->
  activeChatSession (handleUpdateSession s' st) = Some s'.
Proof.
  unfold activeChatSession, handleUpdateSession. simpl.
  destruct (activeChatId st) as [a|]; [|done].
  intros Hfind Hid.
  assert (Ha : id s = a).
  { apply find_some in Hfind as [_ Hb]. by apply bool_decide_eq_true in Hb. }
  induction (chatHistory st) as [|x h IH]; simpl in *; [done|].
  destruct (bool_decide (id x = a)) eqn:Hx.
  - apply bool_decide_eq_true in Hx.
    rewrite decide_True by congruence.
    rewrite bool_decide_eq_true_2 by congruence. done.
  - apply bool_decide_eq_false in Hx.
    rewrite decide_False by congruence.
    rewrite bool_decide_eq_false_2 by done. by apply IH.
Qed.

Lemma active_after_add (st : State) (s : ChatSession) :
  activeChatSession (handleAddNewSession s st) = Some s.
Proof.
  unfold activeChatSession, handleAddNewSession. simpl.
  by rewrite bool_decide_eq_true_2.
Qed.

End AppFacts.

(** ** The chat controller *)

Module ChatbotFacts.
Import Chatbot JSFacts AppFacts.

Section WithSDK.

Variable createChat : ModelName -> list ChatMessage -> Exn Chat.

Abbreviation step := (step createChat).
Abbreviation run := (run createChat).

Lemma with_fullResponse_id (sub : Submission) :
  with_fullResponse (fullResponse sub) sub = sub.
Proof. by destruct sub. Qed.

Lemma run_app (w : World) (evs1 evs2 : list Event) :
  run w (evs1 ++ evs2) = run (run w evs1) evs2.
Proof. apply foldl_app. Qed.

Lemma run_cons (w : World) (ev : Event) (evs : list Event) :
  run w (ev :: evs) = run (step w ev) evs.
Proof. reflexivity. Qed.

Lemma step_chunk_user (w : World) (sub : Submission) (m : ChatMessage)
    (c : option jsstring) :
  inflight w = Some sub ->
  last (messages (bot w)) = Some m -> Types.role m = role_user ->
  step w (Chunk c)
  = {| app := app w; bot := bot w;
       inflight := Some (with_fullResponse (append_text (fullResponse sub) c) sub);
       timers := timers w; crashed := crashed w |}.
Proof.
  intros Hin Hlast Hrole. unfold Chatbot.step. rewrite Hin.
  unfold showResponse. rewrite Hlast, Hrole.
  unfold set_messages. destruct (bot w); simpl in *. done.
Qed.

Lemma step_chunk_model (w : World) (sub : Submission)
    (pre : list ChatMessage) (shown : jsstring) (c : option jsstring) :
  inflight w = Some sub ->
  messages (bot w) = pre ++ [{| Types.role := role_model; Types.content := shown |}] ->
  step w (Chunk c)
  = {| app := app w;
       bot := set_messages
                (pre ++ [{| Types.role := role_model;
                            Types.content := append_text (fullResponse sub) c |}])
                (bot w);
       inflight := Some (with_fullResponse (append_text (fullResponse sub) c) sub);
       timers := timers w; crashed := crashed w |}.
Proof.
  intros Hin Hmsgs. unfold Chatbot.step. rewrite Hin.
  unfold showResponse. rewrite Hmsgs, last_snoc'. simpl.
  by rewrite (slice0_neg_app pre [_]).
Qed.

Lemma step_timeout (w : World) (n : nat) :
  timers w = S n ->
  step w Timeout
  = {| app := app w;
       bot := set_messages (addPlaceholder (messages (bot w))) (bot w);
       inflight := inflight w; timers := n; crashed := crashed w |}.
Proof. intros H. unfold Chatbot.step. by rewrite H. Qed.

(** While the last turn shown is a user turn, a chunk changes nothing
    on screen; the response is accumulated all the same. *)
Lemma run_chunks_before_placeholder (chunks : list (option jsstring))
    (w : World) (sub : Submission) (m : ChatMessage) :
  inflight w = Some sub ->
  last (messages (bot w)) = Some m -> Types.role m = role_user ->
  run w (Chunk <$> chunks)
  = {| app := app w; bot := bot w;
       inflight := Some (with_fullResponse
                           (foldl append_text (fullResponse sub) chunks) sub);
       timers := timers w; crashed := crashed w |}.
Proof.
  revert w sub. induction chunks as [|c chunks IH]; intros w sub Hin Hlast Hrole.
  - simpl. rewrite with_fullResponse_id. destruct w; simpl in *. by subst.
  - rewrite fmap_cons, run_cons.
    rewrite (step_chunk_user w sub m c Hin Hlast Hrole).
    match goal with
    | |- Chatbot.run _ ?w1 _ = _ =>
        rewrite (IH w1 (with_fullResponse (append_text (fullResponse sub) c) sub)
                   eq_refl Hlast Hrole)
    end.
    reflexivity.
Qed.

(** Once the placeholder is the last turn, every chunk overwrites its
    content with the response accumulated so far. *)
Lemma run_chunks_after_placeholder (chunks : list (option jsstring))
    (w : World) (sub : Submission) (pre : list ChatMessage) (shown : jsstring) :
  inflight w = Some sub ->
  messages (bot w) = pre ++ [{| Types.role := role_model; Types.content := shown |}] ->
  run w (Chunk <$> chunks)
  = {| app := app w;
       bot := set_messages
                (pre ++ [{| Types.role := role_model;
                            Types.content :=
                              match chunks with
                              | [] => shown
                              | _ :: _ => foldl append_text (fullResponse sub) chunks
                              end |}])
                (bot w);
       inflight := Some (with_fullResponse
                           (foldl append_text (fullResponse sub) chunks) sub);
       timers := timers w; crashed := crashed w |}.
Proof.
  revert w sub shown.
  induction chunks as [|c chunks IH]; intros w sub shown Hin Hmsgs.
  - simpl. rewrite with_fullResponse_id, <- Hmsgs.
    destruct w as [a b i t cr]; simpl in *. subst i.
    unfold set_messages. by destruct b.
  - rewrite fmap_cons, run_cons.
    rewrite (step_chunk_model w sub pre shown c Hin Hmsgs).
    match goal with
    | |- Chatbot.run _ ?w1 _ = _ =>
        rewrite (IH w1 (with_fullResponse (append_text (fullResponse sub) c) sub)
                   (append_text (fullResponse sub) c) eq_refl eq_refl)
    end.
    unfold set_messages; simpl. by destruct chunks.
Qed.

(** [acc += text] over text fragments is concatenation. *)
Lemma foldl_append_text (fragments : list jsstring) (acc : jsstring) :
  foldl append_text acc (Some <$> fragments) = acc ++ concat fragments.
Proof.
  revert acc. induction fragments as [|f fs IH]; intros acc; simpl.
  - by rewrite app_nil_r.
  - rewrite IH. unfold append_text. by rewrite <- app_assoc.
Qed.

Lemma submit_accepted (w : World) :
  accepts (bot w) ->
  submit w = {| app := app w; bot := streaming (bot w);
                inflight := Some (submitted w);
                timers := S (timers w); crashed := crashed w |}.
Proof.
  intros (Hin & Hload & Hchat). unfold submit, handleSubmit.
  rewrite Hin, Hload, (bool_decide_eq_true_2 _ Hchat). reflexivity.
Qed.

(** The world when the stream of an accepted submission has yielded
    [chunks] and the timer fired after the first [k] of them. *)
Lemma run_stream_placeholder (w : World) (chunks : list (option jsstring)) (k : nat) :
  accepts (bot w) -> (k <= length chunks)%nat ->
  run (submit w) ((Chunk <$> take k chunks) ++ Timeout :: (Chunk <$> drop k chunks))
  = {| app := app w;
       bot := set_messages
                ((messages (bot w) ++ [userTurn (bot w)])
                   ++ [modelTurn match drop k chunks with
                                 | [] => []
                                 | _ :: _ => foldl append_text [] chunks
                                 end])
                (streaming (bot w));
       inflight := Some (with_fullResponse (foldl append_text [] chunks) (submitted w));
       timers := timers w; crashed := crashed w |}.
Proof.
  intros Hacc Hk. rewrite (submit_accepted w Hacc), run_app.
  rewrite (run_chunks_before_placeholder (take k chunks) _ (submitted w) (userTurn (bot w)));
    [|reflexivity|apply last_snoc'|reflexivity].
  rewrite run_cons, (step_timeout _ (timers w)) by reflexivity.
  erewrite (run_chunks_after_placeholder (drop k chunks)); [|reflexivity|reflexivity].
  simpl. rewrite <- foldl_app, take_drop.
  unfold set_messages, modelTurn. simpl. reflexivity.
Qed.

(** The same when the timer has not fired yet. *)
Lemma run_stream_no_placeholder (w : World) (chunks : list (option jsstring)) :
  accepts (bot w) ->
  run (submit w) (Chunk <$> chunks)
  = {| app := app w; bot := streaming (bot w);
       inflight := Some (with_fullResponse (foldl append_text [] chunks) (submitted w));
       timers := S (timers w); crashed := crashed w |}.
Proof.
  intros Hacc. rewrite (submit_accepted w Hacc).
  by rewrite (run_chunks_before_placeholder chunks _ (submitted w) (userTurn (bot w)));
    [|reflexivity|apply last_snoc'|reflexivity].
Qed.

Lemma sessionEffect_messages (s : option ChatSession) (st : State) :
  messages (sessionEffect createChat s st)
  = match s with Some x => Types.messages x | None => [] end.
Proof.
  unfold sessionEffect, initializeChat.
  by destruct (createChat _ _).
Qed.

Lemma sessionEffect_isLoading (s : option ChatSession) (st : State) :
  isLoading (sessionEffect createChat s st) = false.
Proof.
  unfold sessionEffect, initializeChat.
  by destruct (createChat _ _).
Qed.

(** The end of the stream: the finalized turns are written to the
    active session, or to a new session that becomes the active one,
    and the component shows them. *)
Lemma step_StreamEnd (w : World) (sub : Submission) (now : jsstring) :
  inflight w = Some sub -> session sub = App.activeChatSession (app w) ->
  let w' := step w (StreamEnd now) in
  let updatedMessages := newMessages sub ++ [modelTurn (fullResponse sub)] in
  (exists s, App.activeChatSession (app w') = Some s
             /\ Types.messages s = updatedMessages
             /\ (session sub = None ->
                 id s = now /\ title s = sessionTitle (currentInput sub)))
  /\ messages (bot w') = updatedMessages
  /\ isLoading (bot w') = false
  /\ inflight w' = None /\ timers w' = timers w /\ crashed w' = crashed w.
Proof.
  intros Hin Hsess. unfold Chatbot.step. rewrite Hin. cbv zeta.
  destruct (session sub) as [s|] eqn:Hs.
  - symmetry in Hsess. rewrite Hsess. simpl. rewrite bool_decide_eq_true_2 by done.
    erewrite active_after_update; [|exact Hsess|reflexivity].
    rewrite sessionEffect_messages, sessionEffect_isLoading. simpl.
    split; [|done]. eexists; split; [reflexivity|]. by split.
  - simpl. rewrite active_after_add.
    rewrite sessionEffect_messages, sessionEffect_isLoading. simpl.
    split; [|done]. eexists; split; [reflexivity|]. by split.
Qed.

(** An accepted submission whose stream yields [chunks] and ends,
    whenever the timer fires. *)
Lemma submission_completes (w : World) (chunks : list (option jsstring))
    (k : nat) (now : jsstring) :
  accepts (bot w) ->
  let w' := run (submit w) (schedule k chunks (StreamEnd now)) in
  let updatedMessages :=
    (messages (bot w) ++ [userTurn (bot w)])
      ++ [modelTurn (foldl append_text [] chunks)] in
  (exists s, App.activeChatSession (app w') = Some s
             /\ Types.messages s = updatedMessages
             /\ (App.activeChatSession (app w) = None ->
                 id s = now /\ title s = sessionTitle (input (bot w))))
  /\ messages (bot w')
     = updatedMessages
         ++ (if (k <=? length chunks)%nat then [] else [modelTurn []])
  /\ inflight w' = None /\ crashed w' = crashed w.
Proof.
  intros Hacc. cbv zeta. unfold schedule.
  destruct (k <=? length chunks)%nat eqn:Hk.
  - apply Nat.leb_le in Hk.
    replace ((Chunk <$> take k chunks) ++ Timeout :: (Chunk <$> drop k chunks)
               ++ [StreamEnd now])
      with (((Chunk <$> take k chunks) ++ Timeout :: (Chunk <$> drop k chunks))
              ++ [StreamEnd now])
      by (by rewrite <- app_assoc).
    rewrite run_app, (run_stream_placeholder w chunks k Hacc Hk).
    match goal with
    | |- context [Chatbot.run _ ?w1 [StreamEnd now]] =>
        pose proof (step_StreamEnd w1
                      (with_fullResponse (foldl append_text [] chunks) (submitted w))
                      now eq_refl eq_refl) as H;
        change (run w1 [StreamEnd now]) with (step w1 (StreamEnd now));
        cbv zeta in H; set (w2 := step w1 (StreamEnd now)) in *
    end.
    destruct H as ((s & Hs & Hm & Ht) & Hb & _ & Hi & _ & Hc).
    rewrite app_nil_r. split; [|done]. by exists s.
  - rewrite run_app, (run_stream_no_placeholder w chunks Hacc).
    match goal with
    | |- context [Chatbot.run _ ?w1 [StreamEnd now; Timeout]] =>
        pose proof (step_StreamEnd w1
                      (with_fullResponse (foldl append_text [] chunks) (submitted w))
                      now eq_refl eq_refl) as H;
        change (run w1 [StreamEnd now; Timeout])
          with (step (step w1 (StreamEnd now)) Timeout);
        cbv zeta in H; set (w2 := step w1 (StreamEnd now)) in *
    end.
    destruct H as ((s & Hs & Hm & Ht) & Hb & _ & Hi & Hn & Hc).
    rewrite (step_timeout w2 (timers w) Hn).
    cbn [app bot inflight crashed]. unfold set_messages, addPlaceholder.
    cbn [messages]. rewrite Hb.
    split; [|done]. by exists s.
Qed.

(** C1. For every sequence of text fragments streamed in order during
    an accepted submission, and whenever the placeholder timer fires,
    the assistant turn written to the active session when the stream
    ends holds the concatenation of the fragments, each once and in
    arrival order, after the prior turns and the user turn; the
    transcript on screen is the same list (followed by the stray
    placeholder if the timer fires only after the stream has ended),
    and no state updater throws. *)
Theorem stream_accumulates_fragments (w : World) (fragments : list jsstring)
    (k : nat) (now : jsstring) :
  accepts (bot w) ->
  let w' := run (submit w) (schedule k (Some <$> fragments) (StreamEnd now)) in
  let transcript :=
    messages (bot w) ++ [userTurn (bot w); modelTurn (concat fragments)] in
  (exists s, App.activeChatSession (app w') = Some s
             /\ Types.messages s = transcript)
  /\ messages (bot w')
     = transcript ++ (if (k <=? length fragments)%nat then [] else [modelTurn []])
  /\ crashed w' = crashed w.
Proof.
  intros Hacc.
  destruct (submission_completes w (Some <$> fragments) k now Hacc)
    as ((s & Hs & Hm & _) & Hb & _ & Hc).
  cbv zeta. rewrite foldl_append_text, length_fmap in *. simpl in *.
  rewrite <- app_assoc in Hm.
  split; [by exists s|]. split; [|done].
  rewrite Hb, <- !app_assoc. reflexivity.
Qed.

(** C5. When an accepted submission starts a fresh conversation (no
    session is active) and its stream ends, the session created is the
    active one and its title is the input if that has at most 30 code
    units, and the first 30 code units of the input followed by "..."
    if it has more. *)
Theorem new_session_title (w : World) (chunks : list (option jsstring))
    (k : nat) (now : jsstring) :
  accepts (bot w) -> App.activeChatSession (app w) = None ->
  let w' := run (submit w) (schedule k chunks (StreamEnd now)) in
  let s := input (bot w) in
  exists created,
    App.activeChatSession (app w') = Some created
    /\ ((length s <= 30)%nat -> title created = s)
    /\ ((30 < length s)%nat -> title created = take 30 s ++ lit "...").
Proof.
  intros Hacc Hnone.
  destruct (submission_completes w chunks k now Hacc)
    as ((s & Hs & _ & Ht) & _).
  destruct (Ht Hnone) as [_ Htitle].
  cbv zeta. exists s. split; [done|]. rewrite Htitle. unfold sessionTitle.
  split; intros Hlen.
  - rewrite substring0_short by done.
    rewrite (proj2 (Nat.ltb_ge _ _)) by done. by rewrite app_nil_r.
  - by rewrite (proj2 (Nat.ltb_lt _ _)).
Qed.

(** The guard of [handleSubmit]: a submission made while [isLoading] is
    set returns there; the transcript and every other state cell are left
    as they are, and no request is started. *)
Theorem submit_while_streaming_is_noop (w : World) (sess : option ChatSession) :
  isLoading (bot w) = true ->
  handleSubmit sess (bot w) = (bot w, None)
  /\ submit w = w
  /\ messages (bot (submit w)) = messages (bot w).
Proof.
  intros Hload.
  assert (Hguard : forall x, handleSubmit x (bot w) = (bot w, None)).
  { intros x. unfold handleSubmit. rewrite Hload.
    by rewrite orb_true_r. }
  split; [apply Hguard|].
  unfold submit. by rewrite Hguard.
Qed.

(** A failure after the placeholder was added: the rollback removes
    the user turn and the assistant turn, whatever was streamed into
    it, and the error is shown. *)
Lemma failure_after_placeholder (w : World) (chunks : list (option jsstring))
    (k : nat) (message : jsstring) :
  accepts (bot w) -> (k <= length chunks)%nat -> truthy message = true ->
  let w' := run (submit w) (schedule k chunks (StreamError (Some message))) in
  messages (bot w') = messages (bot w)
  /\ error (bot w') = Some message
  /\ isLoading (bot w') = false
  /\ inflight w' = None /\ timers w' = timers w.
Proof.
  intros Hacc Hk Hmsg. cbv zeta. unfold schedule.
  rewrite (proj2 (Nat.leb_le _ _) Hk).
  replace ((Chunk <$> take k chunks) ++ Timeout :: (Chunk <$> drop k chunks)
             ++ [StreamError (Some message)])
    with (((Chunk <$> take k chunks) ++ Timeout :: (Chunk <$> drop k chunks))
            ++ [StreamError (Some message)])
    by (by rewrite <- app_assoc).
  rewrite run_app, (run_stream_placeholder w chunks k Hacc Hk).
  simpl. rewrite Hmsg. repeat split.
  rewrite <- app_assoc.
  apply (slice0_neg_app (messages (bot w)) [_; _]).
Qed.

(** A failure before the timer has fired: the rollback removes the
    user turn and the last turn of the earlier transcript, and the
    timer then adds the placeholder. *)
Lemma failure_before_placeholder (w : World) (chunks : list (option jsstring))
    (k : nat) (message : option jsstring) :
  accepts (bot w) -> (length chunks < k)%nat ->
  let w' := run (submit w) (schedule k chunks (StreamError message)) in
  messages (bot w') = slice0_neg 1 (messages (bot w)) ++ [modelTurn []].
Proof.
  intros Hacc Hk. cbv zeta. unfold schedule.
  rewrite (proj2 (Nat.leb_gt _ _) Hk).
  rewrite run_app, (run_stream_no_placeholder w chunks Hacc).
  simpl. unfold addPlaceholder, modelTurn. f_equal.
  unfold slice0_neg. rewrite length_app. simpl.
  replace (length (messages (bot w)) + 1 - 2)%nat
    with (length (messages (bot w)) - 1)%nat by lia.
  rewrite take_app_le by lia. done.
Qed.

End WithSDK.

Lemma stream_accumulates_fragments_witness :
  accepts (bot Samples.openWorld)
  /\ messages
       (bot (run Samples.createChat (submit Samples.openWorld)
               (schedule 1 [Some (lit "Hel"); Some (lit "lo")]
                  (StreamEnd (lit "1700000000999")))))
     = Samples.earlierTurns
         ++ [ {| Types.role := role_user; Types.content := lit "hi" |};
              {| Types.role := role_model; Types.content := lit "Hello" |} ].
Proof.
  assert (Hacc : accepts (bot Samples.openWorld)).
  { repeat split; [vm_compute; reflexivity.. | by eexists]. }
  split; [exact Hacc|].
  destruct (stream_accumulates_fragments Samples.createChat Samples.openWorld
              [lit "Hel"; lit "lo"] 1 (lit "1700000000999") Hacc)
    as (_ & H & _).
  exact H.
Defined.

Lemma new_session_title_witness :
  accepts (bot Samples.freshWorld)
  /\ App.activeChatSession (app Samples.freshWorld) = None
  /\ (length (input (bot Samples.freshWorld)) <= 30)%nat
  /\ exists created,
       App.activeChatSession
         (app (run Samples.createChat (submit Samples.freshWorld)
                 (schedule 0 [Some (lit "Hi!")] (StreamEnd (lit "1700000000999")))))
       = Some created
       /\ title created = lit "Hello".
Proof.
  assert (Hacc : accepts (bot Samples.freshWorld)).
  { repeat split; [vm_compute; reflexivity.. | by eexists]. }
  assert (Hlen : (length (input (bot Samples.freshWorld)) <= 30)%nat).
  { vm_compute. lia. }
  split; [exact Hacc|]. split; [reflexivity|]. split; [exact Hlen|].
  destruct (new_session_title Samples.createChat Samples.freshWorld
              [Some (lit "Hi!")] 0 (lit "1700000000999") Hacc eq_refl)
    as (created & Hactive & Hshort & _).
  exists created. split; [exact Hactive|].
  apply Hshort. exact Hlen.
Defined.

Lemma submit_while_streaming_is_noop_witness :
  isLoading (bot Samples.streamingWorld) = true
  /\ submit Samples.streamingWorld = Samples.streamingWorld.
Proof.
  split; [reflexivity|].
  destruct (submit_while_streaming_is_noop Samples.streamingWorld None eq_refl)
    as (_ & H & _).
  exact H.
Defined.

(** The title of a 45 character input: its first 30 characters and
    "...". *)
Example sessionTitle_45 :
  sessionTitle (lit "123456789012345678901234567890123456789012345")
  = lit "123456789012345678901234567890...".
Proof. reflexivity. Qed.

(** C2, at a failing input.  The session shows two turns, "hi" is
    submitted, and the stream fails (the browser is offline, say) before
    the 10 ms timer has added the placeholder.  The rollback then
    removes the user turn and the last earlier turn, "a1", and the timer
    adds an empty assistant turn afterwards: the transcript shown is not
    the one from before the submission. *)
Theorem rollback_before_placeholder_loses_turn :
  let w := Samples.openWorld in
  let failure := StreamError (Some (lit "Failed to fetch")) in
  let w' := run Samples.createChat (submit w) (schedule 1 [] failure) in
  schedule 1 [] failure = [failure; Timeout]
  /\ messages (bot w)
     = [ {| Types.role := role_user; Types.content := lit "q1" |};
         {| Types.role := role_model; Types.content := lit "a1" |} ]
  /\ messages (bot (run Samples.createChat (submit w) [failure]))
     = [ {| Types.role := role_user; Types.content := lit "q1" |} ]
  /\ messages (bot w')
     = [ {| Types.role := role_user; Types.content := lit "q1" |};
         {| Types.role := role_model; Types.content := [] |} ]
  /\ messages (bot w') <> messages (bot w)
  /\ length (messages (bot (run Samples.createChat (submit w) [failure])))
     <> length (messages (bot w))
  /\ error (bot w') = Some (lit "Failed to fetch")
  /\ isLoading (bot w') = false.
Proof. vm_compute. repeat split; congruence. Qed.

End ChatbotFacts.


(** ** The model gateway *)

Module GatewayFacts.
Import Gateway.

Section WithEnv.

Variable API_KEY : option jsstring.
Variable host : Host.
Variable fetchObjectURL : jsstring -> Exn jsstring.

(** With a key in place the host is not asked anything. *)
Lemma getApiKey_available (apiKey : jsstring) :
  API_KEY = Some apiKey -> truthy apiKey = true ->
  getApiKey API_KEY host = ([], Ok apiKey).
Proof.
  intros -> H. unfold getApiKey, keyAtRequest. cbn [truthy_opt].
  rewrite H. cbn. by rewrite H.
Qed.

(** The loop of [editImageWithPrompt] returns the first part that has
    [inlineData], and throws when no part has. *)
Lemma firstInlineData_spec (ps : list SDK.Part) :
  (exists before part d after,
      ps = before ++ part :: after
      /\ Forall (fun p => SDK.inlineData p = None) before
      /\ SDK.inlineData part = Some d
      /\ firstInlineData ps
         = Ok {| base64 := SDK.data d; mimeType := SDK.mimeType d |})
  \/ (Forall (fun p => SDK.inlineData p = None) ps
      /\ firstInlineData ps = Throw NoImageProduced).
Proof.
  induction ps as [|p ps IH]; simpl.
  - right. by split.
  - destruct (SDK.inlineData p) as [d|] eqn:Hp.
    + left. exists [], p, d, ps. by repeat split.
    + destruct IH as [(before & part & d & after & -> & Hb & Hd & Hr)|[Hall Hr]].
      * left. exists (p :: before), part, d, after.
        repeat split; [by constructor|done..].
      * right. split; [by constructor|done].
Qed.

(** [editImageWithPrompt], with a credential and a reply of the provider:
    the payload of the first image part, or [NoImageProduced]. *)
Lemma editImage_first_image_part (apiKey : jsstring)
    (response : SDK.GenerateContentResponse) :
  API_KEY = Some apiKey -> truthy apiKey = true ->
  let ps := responseParts response in
  (exists before part d after,
      ps = before ++ part :: after
      /\ Forall (fun p => SDK.inlineData p = None) before
      /\ SDK.inlineData part = Some d
      /\ editImageWithPrompt API_KEY host (Ok response)
         = Ok {| base64 := SDK.data d; mimeType := SDK.mimeType d |})
  \/ (Forall (fun p => SDK.inlineData p = None) ps
      /\ editImageWithPrompt API_KEY host (Ok response) = Throw NoImageProduced).
Proof.
  intros Hkey Htruthy. cbv zeta. unfold editImageWithPrompt, getAiClient.
  rewrite (getApiKey_available apiKey Hkey Htruthy). simpl.
  apply firstInlineData_spec.
Qed.

(** [generateImageWithPrompt] returns the bytes of the first generated
    image as a PNG payload, and throws [NoImageProduced] when that image
    has no bytes. *)
Lemma generateImage_first_image (apiKey : jsstring)
    (bytes : option jsstring) (others : list SDK.GeneratedImage) :
  API_KEY = Some apiKey -> truthy apiKey = true ->
  generateImageWithPrompt API_KEY host
    (Ok {| SDK.generatedImages :=
             Some ({| SDK.image := Some {| SDK.imageBytes := bytes |} |} :: others) |})
  = if truthy_opt bytes
    then Ok {| base64 := default [] bytes; mimeType := lit "image/png" |}
    else Throw NoImageProduced.
Proof.
  intros Hkey Htruthy. unfold generateImageWithPrompt, getAiClient.
  rewrite (getApiKey_available apiKey Hkey Htruthy). simpl.
  destruct bytes as [b|]; simpl; [|done]. by destruct (truthy b).
Qed.

(** [generateImageWithPrompt] on a reply without any generated image:
    the unguarded reads throw a [TypeError]. *)
Lemma generateImage_no_image (apiKey : jsstring) :
  API_KEY = Some apiKey -> truthy apiKey = true ->
  generateImageWithPrompt API_KEY host (Ok {| SDK.generatedImages := Some [] |})
  = Throw TypeError
  /\ generateImageWithPrompt API_KEY host (Ok {| SDK.generatedImages := None |})
     = Throw TypeError
  /\ generateImageWithPrompt API_KEY host
       (Ok {| SDK.generatedImages := Some [ {| SDK.image := None |} ] |})
     = Throw TypeError.
Proof.
  intros Hkey Htruthy. unfold generateImageWithPrompt, getAiClient.
  by rewrite (getApiKey_available apiKey Hkey Htruthy).
Qed.

End WithEnv.

(** C3, at a failing input.  With a credential in place, the provider
    replies to [generateImages] with an empty list of generated images (a
    reply that contains no image): [generateImageWithPrompt] throws the
    engine's [TypeError], not [NoImageProduced].  [editImageWithPrompt] on
    a reply without parts throws [NoImageProduced], as specified. *)
Theorem generateImage_empty_reply_is_TypeError (host : Host) :
  let API_KEY := Some (lit "key") in
  generateImageWithPrompt API_KEY host (Ok {| SDK.generatedImages := Some [] |})
  = Throw TypeError
  /\ generateImageWithPrompt API_KEY host (Ok {| SDK.generatedImages := Some [] |})
     <> Throw NoImageProduced
  /\ editImageWithPrompt API_KEY host
       (Ok {| SDK.candidates := Some []; SDK.response_text := None |})
     = Throw NoImageProduced.
Proof. vm_compute. repeat split; congruence. Qed.

Section Search.

Variable API_KEY : option jsstring.
Variable host : Host.

Lemma responseSources_filter (response : SDK.GenerateContentResponse) :
  responseSources response
  = List.filter wellFormed (toSource <$> groundingChunksOf response).
Proof.
  unfold responseSources, groundingChunksOf.
  destruct (SDK.candidates response) as [[|c cs]|]; simpl; [done| |done].
  destruct (SDK.groundingMetadata c) as [g|]; simpl; [|done].
  by destruct (SDK.groundingChunks g).
Qed.

Lemma wellFormed_spec (s : Source) :
  wellFormed s = true
  <-> exists u t, uri s = Some u /\ title s = Some t /\ u <> [] /\ t <> [].
Proof.
  unfold wellFormed. destruct s as [[[|a u]|] [[|b t]|]]; simpl; split;
    try discriminate; try (intros (? & ? & ? & ? & ? & ?); congruence).
  intros _. by exists (a :: u), (b :: t).
Qed.

Lemma filter_sublist {A} (f : A -> bool) (l : list A) :
  sublist (List.filter f l) l.
Proof.
  induction l as [|x l IH]; simpl; [constructor|].
  destruct (f x); by constructor.
Qed.

(** C8. With a credential in place, [searchWithGoogle] returns, for every
    reply of the provider, the citations built from the grounding chunks
    of the reply that have both a uri and a title, present and not empty:
    the returned list is the list of all citations with the others
    filtered out, so in the original order and with nothing added; a
    reply with the citations [{uri:"a", title:""}, {uri:"b", title:"T"}]
    yields the single citation [{uri:"b", title:"T"}]. *)
Theorem search_keeps_well_formed_citations (apiKey : jsstring)
    (response : SDK.GenerateContentResponse) :
  API_KEY = Some apiKey -> truthy apiKey = true ->
  let provided := toSource <$> groundingChunksOf response in
  exists result,
    searchWithGoogle API_KEY host (Ok response) = Ok result
    /\ sources result = List.filter wellFormed provided
    /\ sublist (sources result) provided
    /\ (forall s, s ∈ sources result
                  <-> s ∈ provided
                      /\ exists u t, uri s = Some u /\ title s = Some t
                                     /\ u <> [] /\ t <> [])
    /\ (provided = [ {| uri := Some (lit "a"); title := Some [] |};
                     {| uri := Some (lit "b"); title := Some (lit "T") |} ]
        -> sources result
           = [ {| uri := Some (lit "b"); title := Some (lit "T") |} ]).
Proof.
  intros Hkey Htruthy. cbv zeta. unfold searchWithGoogle, getAiClient.
  rewrite (getApiKey_available API_KEY host apiKey Hkey Htruthy). simpl.
  eexists. split; [reflexivity|]. simpl. rewrite responseSources_filter.
  split; [done|]. split; [apply filter_sublist|]. split.
  - intros s. rewrite !list_elem_of_In, filter_In, wellFormed_spec. tauto.
  - intros ->. reflexivity.
Qed.

End Search.

Lemma search_keeps_well_formed_citations_witness :
  truthy (lit "key") = true
  /\ exists result,
       searchWithGoogle (Some (lit "key")) Samples.host (Ok Samples.searchReply) = Ok result
       /\ sources result = [ {| uri := Some (lit "b"); title := Some (lit "T") |} ].
Proof.
  split; [reflexivity|].
  destruct (search_keeps_well_formed_citations (Some (lit "key")) Samples.host
              (lit "key")
              Samples.searchReply eq_refl eq_refl)
    as (result & Hresult & _ & _ & _ & Hexample).
  exists result. split; [exact Hresult|]. apply Hexample. reflexivity.
Defined.

Section Animate.

Variable API_KEY : option jsstring.
Variable host : Host.
Variable fetchObjectURL : jsstring -> Exn jsstring.

Lemma last_cons_default {A} (l : list A) (x d : A) :
  List.last (x :: l) d = List.last l x.
Proof.
  revert x d. induction l as [|y l IH]; intros x d; [done|].
  change (List.last (x :: y :: l) d) with (List.last (y :: l) d).
  by rewrite !IH.
Qed.

(** The loop goes through every reply that is not done. *)
Lemma pollLoop_pending (pending : list SDK.Operation) (operation : SDK.Operation)
    (replies : list (Exn SDK.Operation)) :
  notDone operation = true ->
  Forall (fun op => notDone op = true) pending ->
  pollLoop host operation ((Ok <$> pending) ++ replies)
  = (pollRounds (length pending) ++ (pollLoop host (List.last pending operation) replies).1,
     (pollLoop host (List.last pending operation) replies).2).
Proof.
  revert operation. induction pending as [|p pending IH]; intros operation Hop Hall.
  - simpl. by destruct (pollLoop host operation replies).
  - inversion Hall as [|? ? Hp Hrest]; subst.
    rewrite last_cons_default, fmap_cons.
    change ((Ok p :: (Ok <$> pending)) ++ replies)
      with (Ok p :: ((Ok <$> pending) ++ replies)).
    cbn [pollLoop]. rewrite Hop, (IH p Hp Hrest). reflexivity.
Qed.

Lemma last_notDone (pending : list SDK.Operation) (operation : SDK.Operation) :
  notDone operation = true ->
  Forall (fun op => notDone op = true) pending ->
  notDone (List.last pending operation) = true.
Proof.
  intros Hop Hall. revert operation Hop.
  induction Hall as [|p pending Hp Hall IH]; intros operation Hop; [done|].
  rewrite last_cons_default. by apply IH.
Qed.

Lemma pollLoop_done (operation : SDK.Operation) (replies : list (Exn SDK.Operation)) :
  notDone operation = false -> pollLoop host operation replies = ([], Returned operation).
Proof. intros H. destruct replies; simpl; by rewrite H. Qed.

Lemma pollRounds_S (n : nat) : pollRounds (S n) = pollRounds n ++ pollRound.
Proof.
  unfold pollRounds. induction n as [|n IH]; [done|].
  change (concat (replicate (S (S n)) pollRound))
    with (pollRound ++ concat (replicate (S n) pollRound)).
  rewrite IH at 1. by rewrite app_assoc.
Qed.

(** C9. With a credential in place and a handle that is not done when
    the request returns: if the status requests report not done for
    [pending] (any number of times) and then done with a video link, the
    function makes exactly [length pending + 1] status requests, each one
    after a wait of 5000 ms, then downloads the video from the link (with
    the key appended) and returns its object URL; so a handle seen not
    done twice (at the start and at the first request) and then done
    takes exactly 2 requests.  As long as no reply says done the function
    keeps waiting and asking, without any bound; an error of a status
    request ends it, as [CredentialInvalidated] after the key dialog when
    the message says the entity was not found, and as the error itself
    otherwise (or as the rejection of the dialog, when the host rejects
    it). *)
Theorem animate_polls_until_done (apiKey link : jsstring)
    (started final : SDK.Operation) (pending : list SDK.Operation)
    (later : list (Exn SDK.Operation)) :
  API_KEY = Some apiKey -> truthy apiKey = true ->
  notDone started = true ->
  Forall (fun op => notDone op = true) pending ->
  notDone final = false ->
  downloadLink final = Some link -> truthy link = true ->
  let animate := animateImageWithVeo API_KEY host fetchObjectURL (Ok started) in
  let url := link ++ lit "&key=" ++ apiKey in
  animate ((Ok <$> pending) ++ Ok final :: later)
  = (pollRounds (S (length pending)) ++ [Fetch url],
     match fetchObjectURL url with
     | Ok objectUrl => Returned objectUrl
     | Throw e => Thrown e
     end)
  /\ (length pending = 1%nat ->
      (animate ((Ok <$> pending) ++ Ok final :: later)).1
      = [Sleep 5000; GetVideosOperation; Sleep 5000; GetVideosOperation; Fetch url])
  /\ animate (Ok <$> pending) = (pollRounds (S (length pending)), Awaiting)
  /\ forall e,
       animate ((Ok <$> pending) ++ Throw e :: later)
       = (pollRounds (S (length pending))
            ++ (if entityNotFound e then [OpenSelectKey] else []),
          Thrown (if entityNotFound e
                  then match reopenSelectKey host with
                       | Ok _ => CredentialInvalidated
                       | Throw rejection => rejection
                       end
                  else e)).
Proof.
  intros Hkey Htruthy Hstart Hpending Hfinal Hlink Hnonempty. cbv zeta.
  pose proof (last_notDone pending started Hstart Hpending) as Hlast.
  assert (Hdone :
    animateImageWithVeo API_KEY host fetchObjectURL (Ok started)
      ((Ok <$> pending) ++ Ok final :: later)
    = (pollRounds (S (length pending)) ++ [Fetch (link ++ lit "&key=" ++ apiKey)],
       match fetchObjectURL (link ++ lit "&key=" ++ apiKey) with
       | Ok objectUrl => Returned objectUrl
       | Throw e => Thrown e
       end)).
  { unfold animateImageWithVeo.
    rewrite (getApiKey_available API_KEY host apiKey Hkey Htruthy).
    rewrite (pollLoop_pending pending started _ Hstart Hpending).
    cbn [pollLoop]. rewrite Hlast, (pollLoop_done final later Hfinal).
    cbn [fst snd]. rewrite Hlink, Hnonempty, pollRounds_S. reflexivity. }
  split; [exact Hdone|]. split; [|split].
  - intros Hone. rewrite Hdone, Hone. reflexivity.
  - unfold animateImageWithVeo.
    rewrite (getApiKey_available API_KEY host apiKey Hkey Htruthy).
    rewrite <- (app_nil_r (Ok <$> pending)).
    rewrite (pollLoop_pending pending started _ Hstart Hpending).
    cbn [pollLoop]. rewrite Hlast. cbn [fst snd]. by rewrite pollRounds_S.
  - intros e. unfold animateImageWithVeo.
    rewrite (getApiKey_available API_KEY host apiKey Hkey Htruthy).
    rewrite (pollLoop_pending pending started _ Hstart Hpending).
    cbn [pollLoop]. rewrite Hlast, pollRounds_S.
    destruct (entityNotFound e); cbn [fst snd].
    + destruct (reopenSelectKey host); by rewrite <- app_assoc.
    + by rewrite app_nil_r.
Qed.

End Animate.

Lemma animate_polls_until_done_witness :
  notDone Samples.runningOperation = true
  /\ notDone Samples.finishedOperation = false
  /\ animateImageWithVeo (Some (lit "key")) Samples.host Samples.fetchObjectURL
       (Ok Samples.runningOperation)
       [Ok Samples.runningOperation; Ok Samples.finishedOperation]
     = ([Sleep 5000; GetVideosOperation; Sleep 5000; GetVideosOperation;
         Fetch (lit "https://videos/1?alt=media&key=key")],
        Returned (lit "blob:1")).
Proof.
  split; [reflexivity|]. split; [reflexivity|].
  assert (Hpending : Forall (fun op => notDone op = true) [Samples.runningOperation]).
  { repeat constructor. }
  destruct (animate_polls_until_done (Some (lit "key")) Samples.host
              Samples.fetchObjectURL
              (lit "key") (lit "https://videos/1?alt=media")
              Samples.runningOperation Samples.finishedOperation
              [Samples.runningOperation] []
              eq_refl eq_refl eq_refl Hpending eq_refl eq_refl eq_refl)
    as (H & _).
  exact H.
Defined.

End GatewayFacts.


(** ** Durable storage *)

Module StorageFacts.
Import Storage.

#[local] Arguments truthy_json : simpl never.

Lemma validMessage_spec (msg : json) (m : LoadedMessage) :
  validMessage msg = Ok m ->
  (if truthy_json (Some (content m)) then Some m else None) = spec_turn msg.
Proof.
  destruct msg as [| | | | |fields]; simpl; intros H; inversion H; subst; clear H;
    simpl; try done.
  destruct (lookup_field (lit "content") fields) as [c|]; simpl; [|done].
  destruct (truthy_json (Some c)) eqn:Hc; simpl; [|done].
  rewrite Hc. do 2 f_equal.
  destruct (lookup_field (lit "role") fields) as [[| | |s| |]|]; try done.
  destruct (decide (s = lit "user")) as [->|]; [|done].
  by destruct (decide (lit "user" = lit "model")).
Qed.

Lemma validMessage_total (msg : json) :
  msg <> JNull -> exists m, validMessage msg = Ok m.
Proof. destruct msg; simpl; intros H; try done; by eexists. Qed.

Lemma mapE_validMessage_spec (items : list json) (l : list LoadedMessage) :
  mapE validMessage items = Ok l ->
  List.filter (fun msg => truthy_json (Some (content msg))) l = omap spec_turn items.
Proof.
  revert l. induction items as [|msg items IH]; intros l; simpl.
  - intros H. by inversion H.
  - destruct (validMessage msg) as [m|] eqn:Hm; simpl; [|done].
    destruct (mapE validMessage items) as [ms|]; simpl; [|done].
    intros H. inversion H; subst; clear H. simpl.
    rewrite <- (validMessage_spec msg m Hm), (IH ms eq_refl).
    by destruct (truthy_json (Some (content m))).
Qed.

Lemma mapE_total {A B} (f : A -> Exn B) (P : A -> Prop) (xs : list A) :
  (forall x, P x -> exists y, f x = Ok y) -> Forall P xs ->
  exists ys, mapE f xs = Ok ys.
Proof.
  intros Hf. induction 1 as [|x xs Hx _ [ys IH]]; simpl; [by eexists|].
  destruct (Hf x Hx) as [y ->]. rewrite IH. by eexists.
Qed.

Lemma mapE_Forall2 {A B} (f : A -> Exn B) (R : A -> B -> Prop) (xs : list A) :
  (forall x y, f x = Ok y -> R x y) ->
  forall ys, mapE f xs = Ok ys -> Forall2 R xs ys.
Proof.
  intros Hf. induction xs as [|x xs IH]; intros ys; simpl.
  - intros H. inversion H. constructor.
  - destruct (f x) as [y|] eqn:Hy; simpl; [|done].
    destruct (mapE f xs) as [ys'|]; simpl; [|done].
    intros H. inversion H; subst. constructor; auto.
Qed.

(** [validSession] keeps the session and computes the turns the
    specification asks for. *)
Lemma validSession_spec (session : json) (loaded : LoadedSession) :
  validSession session = Ok loaded ->
  spread loaded = session /\ messages loaded = spec_turns session.
Proof.
  unfold validSession.
  destruct session as [| | | | |fields]; simpl; intros H; inversion H; subst;
    clear H; try done.
  revert H1.
  destruct (lookup_field (lit "messages") fields) as [[| | | |items|]|]; simpl;
    try (intros H; inversion H; done).
  destruct (mapE validMessage items) as [l|] eqn:Hl; simpl; [|done].
  intros H; inversion H; subst; clear H. simpl.
  split; [done|]. by apply mapE_validMessage_spec.
Qed.

Lemma validSession_total (session : json) :
  noNull session -> exists loaded, validSession session = Ok loaded.
Proof.
  intros [Hnull Hturns]. unfold validSession.
  destruct session as [| | | | |fields]; simpl; try done; try by eexists.
  destruct (lookup_field (lit "messages") fields) as [[| | | |items|]|] eqn:Hm;
    simpl; try by eexists.
  destruct (mapE_total validMessage (fun msg => msg <> JNull) items
              validMessage_total (Hturns fields items eq_refl Hm)) as [l ->].
  simpl. by eexists.
Qed.

Section WithPlatform.

Variable JSON_parse : jsstring -> Exn json.
Variable JSON_stringify : json -> jsstring.
Variable hasRoom : gmap jsstring jsstring -> jsstring -> jsstring -> bool.

(** C6. The load effect of the chat history never raises.  Whenever it
    loads a history, the stored text parsed to a list of sessions, and
    each loaded session is the stored one with its turns replaced by the
    tolerant reading of them, in order: a turn with empty (or otherwise
    falsy or missing) content is dropped, and a turn whose role is
    neither "user" nor "model" is a "user" turn.  It does load every
    stored list in which no session and no turn is [null]. *)
Theorem chat_history_load_is_tolerant (ls : gmap jsstring jsstring) :
  (exists outcome, loadChatHistory JSON_parse ls = Ok outcome)
  /\ (forall validHistory,
        loadChatHistory JSON_parse ls = Ok (Some validHistory) ->
        exists savedHistory sessions,
          ls !! lit "gemini-chat-history" = Some savedHistory
          /\ JSON_parse savedHistory = Ok (JArr sessions)
          /\ Forall2 (fun session loaded =>
                        spread loaded = session
                        /\ messages loaded = spec_turns session)
                sessions validHistory)
  /\ (forall savedHistory sessions,
        ls !! lit "gemini-chat-history" = Some savedHistory ->
        savedHistory <> [] ->
        JSON_parse savedHistory = Ok (JArr sessions) ->
        Forall noNull sessions ->
        exists validHistory,
          loadChatHistory JSON_parse ls = Ok (Some validHistory)).
Proof.
  unfold loadChatHistory, getItem.
  destruct (ls !! lit "gemini-chat-history") as [saved|] eqn:Hsaved; simpl.
  2:{ split; [by eexists|]. split; [done|]. intros ? ? H. inversion H. }
  destruct saved as [|c saved]; simpl.
  { split; [by eexists|]. split; [done|]. intros ? ? H Hne. inversion H; subst. done. }
  destruct (JSON_parse (c :: saved)) as [parsed|e] eqn:Hparse; simpl.
  2:{ split; [by eexists|]. split; [done|]. intros ? ? H _ Hp.
      inversion H; subst. congruence. }
  destruct parsed as [| | | |sessions|];
    try (simpl; split; [by eexists|]; split; [done|];
         intros ? ? H _ Hp; inversion H; subst; congruence).
  simpl. destruct (mapE validSession sessions) as [validHistory|e] eqn:Hmap; simpl.
  - split; [by eexists|]. split.
    + intros h H. inversion H; subst. exists (c :: saved), sessions.
      split; [done|]. split; [done|].
      apply (mapE_Forall2 validSession _ sessions validSession_spec _ Hmap).
    + intros. by eexists.
  - split; [by eexists|]. split; [done|].
    intros saved' sessions' H _ Hp Hshape. inversion H; subst.
    rewrite Hparse in Hp. inversion Hp; subst.
    destruct (mapE_total validSession noNull sessions' validSession_total Hshape)
      as [h Hh].
    congruence.
Qed.

(** C7. Writing a value [V] that survives [JSON.stringify] and
    [JSON.parse] under a key [K], when the storage has room for it, and
    initializing the state anew from the storage gives [V] back, whatever
    the default.  When nothing is stored under [K], or what is stored
    does not parse, initializing gives the default, and it never raises. *)
Theorem persistent_state_round_trip (ls : gmap jsstring jsstring)
    (K : jsstring) (V defaultValue : json) :
  (JSON_parse (JSON_stringify V) = Ok V ->
   JSON_parse [] = Throw SyntaxError ->
   hasRoom ls K (JSON_stringify V) = true ->
   exists ls',
     usePersistentState_effect JSON_stringify hasRoom ls K V = Ok ls'
     /\ getItem ls' K = Some (JSON_stringify V)
     /\ usePersistentState_init JSON_parse ls' K defaultValue = Ok V)
  /\ (getItem ls K = None ->
      usePersistentState_init JSON_parse ls K defaultValue = Ok defaultValue)
  /\ (forall stored e,
        getItem ls K = Some stored -> JSON_parse stored = Throw e ->
        usePersistentState_init JSON_parse ls K defaultValue = Ok defaultValue)
  /\ (exists v, usePersistentState_init JSON_parse ls K defaultValue = Ok v).
Proof.
  split; [|split; [|split]].
  - intros Hround Hempty Hroom.
    unfold usePersistentState_effect, setItem. rewrite Hroom. simpl.
    eexists. split; [reflexivity|].
    unfold usePersistentState_init, getItem. rewrite lookup_insert_eq.
    split; [done|].
    destruct (JSON_stringify V) as [|c text] eqn:Htext; [congruence|].
    simpl. by rewrite Hround.
  - intros Hnone. unfold usePersistentState_init. by rewrite Hnone.
  - intros stored e Hstored Hparse. unfold usePersistentState_init.
    rewrite Hstored, Hparse. simpl. by destruct (truthy stored).
  - unfold usePersistentState_init.
    destruct (getItem ls K) as [stored|]; simpl; [|by eexists].
    destruct (truthy stored); simpl; [|by eexists].
    destruct (JSON_parse stored); simpl; by eexists.
Qed.

End WithPlatform.

Lemma persistent_state_round_trip_witness :
  Storage.parse_keyword (Storage.stringify_keyword (JBool true)) = Ok (JBool true)
  /\ Storage.parse_keyword [] = Throw SyntaxError
  /\ usePersistentState_init Storage.parse_keyword
       (<[lit "search-prompt" := lit "true"]> ∅) (lit "search-prompt") JNull
     = Ok (JBool true)
  /\ usePersistentState_init Storage.parse_keyword
       (<[lit "search-prompt" := lit "{oops"]> ∅) (lit "search-prompt") JNull
     = Ok JNull.
Proof.
  split; [reflexivity|]. split; [reflexivity|].
  destruct (persistent_state_round_trip Storage.parse_keyword
              Storage.stringify_keyword (fun _ _ _ => true)
              ∅ (lit "search-prompt") (JBool true) JNull)
    as (Hround & _).
  destruct (Hround eq_refl eq_refl eq_refl) as (ls' & Hwrite & _ & Hread).
  inversion Hwrite; subst ls'. split; [exact Hread|].
  destruct (persistent_state_round_trip Storage.parse_keyword
              Storage.stringify_keyword (fun _ _ _ => true)
              (<[lit "search-prompt" := lit "{oops"]> ∅)
              (lit "search-prompt") (JBool true) JNull)
    as (_ & _ & Hbad & _).
  apply (Hbad (lit "{oops") SyntaxError); [apply lookup_insert_eq | reflexivity].
Defined.

(** The specification's example: the "system" turn is loaded as a user
    turn and the turn with empty content is gone. *)
Example load_stored_history :
  loadChatHistory Samples.parseStored Samples.storedHistory
  = Ok (Some [ {| spread := Samples.storedSession;
                  messages :=
                    [ {| content := JStr (lit "be brief"); role := role_user |};
                      {| content := JStr (lit "q1"); role := role_user |};
                      {| content := JStr (lit "a1"); role := role_model |} ] |} ]).
Proof. vm_compute. reflexivity. Qed.

Lemma chat_history_load_is_tolerant_witness :
  exists validHistory,
    loadChatHistory Samples.parseStored Samples.storedHistory = Ok (Some validHistory)
    /\ Forall2 (fun session loaded =>
                  spread loaded = session /\ messages loaded = spec_turns session)
         [Samples.storedSession] validHistory.
Proof.
  destruct (chat_history_load_is_tolerant Samples.parseStored Samples.storedHistory)
    as (_ & Hloaded & _).
  eexists. split; [exact load_stored_history|].
  destruct (Hloaded _ load_stored_history) as (saved & sessions & Hs & Hp & Hall).
  vm_compute in Hs. inversion Hs; subst saved.
  vm_compute in Hp. inversion Hp; subst sessions.
  exact Hall.
Defined.

End StorageFacts.


(** ** The image uploader *)

Module ImageUploaderFacts.
Import ImageUploader.

Lemma stripPrefix_spec (p s r : jsstring) :
  stripPrefix p s = Some r <-> s = p ++ r.
Proof.
  revert s. induction p as [|a p IH]; intros s; simpl.
  - split; [by intros [= ->]|by intros ->].
  - destruct s as [|b s]; [split; discriminate|].
    destruct (N.eqb_spec a b) as [->|Hne].
    + rewrite IH. split; [by intros ->|by intros [= ->]].
    + split; [discriminate|]. intros [= -> _]. done.
Qed.

Lemma spanWord_spec (s w r : jsstring) :
  spanWord s = (w, r) <->
  s = w ++ r /\ forallb isWordChar w = true
  /\ match r with c :: _ => isWordChar c = false | [] => True end.
Proof.
  revert w r. induction s as [|c s IH]; intros w r; simpl.
  - split.
    + by intros [= <- <-].
    + intros (H & _ & _). symmetry in H. apply app_eq_nil in H as [-> ->]. done.
  - destruct (isWordChar c) eqn:Hc.
    + destruct (spanWord s) as [w' r'] eqn:Hs.
      specialize (IH w' r'). destruct IH as [IH _].
      destruct (IH eq_refl) as (-> & Hw' & Hr'). split.
      * intros [= <- <-]. simpl. by rewrite Hc.
      * intros (Heq & Hw & Hr). destruct w as [|a w]; simpl in *.
        { subst r. congruence. }
        injection Heq as <- Heq. apply andb_true_iff in Hw as [_ Hw].
        assert (H : spanWord (w' ++ r') = (w, r)).
        { rewrite Heq. clear -Hw Hr. induction w as [|a w IHw]; simpl in *.
          - destruct r as [|b r]; [done|]. simpl. by rewrite Hr.
          - apply andb_true_iff in Hw as [Ha Hw]. rewrite Ha.
            by rewrite (IHw Hw). }
        rewrite Hs in H. by injection H as -> ->.
    + split.
      * intros [= <- <-]. by repeat split.
      * intros (Heq & Hw & Hr). destruct w as [|a w]; simpl in *.
        { by subst r. }
        injection Heq as <- _. apply andb_true_iff in Hw as [Ha _]. congruence.
Qed.

Lemma stripPrefix_app (p r : jsstring) : stripPrefix p (p ++ r) = Some r.
Proof. by apply stripPrefix_spec. Qed.

(** The strings the regular expression matches, and its two groups. *)
Lemma matchDataUrl_spec (s m d : jsstring) :
  matchDataUrl s = Some (m, d) <->
  exists w,
    s = lit "data:" ++ lit "image/" ++ w ++ lit ";base64," ++ d
    /\ w <> [] /\ forallb isWordChar w = true
    /\ forallb (fun c => negb (isLineTerminator c)) d = true
    /\ m = lit "image/" ++ w.
Proof.
  unfold matchDataUrl. split.
  - destruct (stripPrefix (lit "data:") s) as [r0|] eqn:H0; [|done].
    apply stripPrefix_spec in H0. cbn [mbind option_bind].
    destruct (stripPrefix (lit "image/") r0) as [r1|] eqn:H1; [|done].
    apply stripPrefix_spec in H1. cbn [mbind option_bind].
    destruct (spanWord r1) as [w r2] eqn:H2.
    apply spanWord_spec in H2 as (H2 & Hw & _).
    destruct w as [|a w]; [done|]. cbn [truthy].
    destruct (stripPrefix (lit ";base64,") r2) as [r3|] eqn:H3; [|done].
    apply stripPrefix_spec in H3. cbn [mbind option_bind].
    destruct (forallb _ r3) eqn:Hd; [|done].
    intros [= <- <-]. exists (a :: w). subst. by repeat split.
  - intros (w & -> & Hne & Hw & Hd & ->).
    rewrite stripPrefix_app. cbn [mbind option_bind].
    rewrite stripPrefix_app. cbn [mbind option_bind].
    assert (Hspan : spanWord (w ++ lit ";base64," ++ d) = (w, lit ";base64," ++ d)).
    { apply spanWord_spec. by repeat split. }
    rewrite Hspan. destruct w as [|a w]; [done|]. cbn [truthy].
    rewrite stripPrefix_app. cbn [mbind option_bind]. by rewrite Hd.
Qed.

Lemma b64char_range (i : N) : 43 <= b64char i <= 122.
Proof.
  unfold b64char.
  destruct (N.ltb_spec i 26); [lia|].
  destruct (N.ltb_spec i 52); [lia|].
  destruct (N.ltb_spec i 62); [lia|].
  destruct (N.eqb_spec i 62); lia.
Qed.

Lemma b64char_not_terminator (i : N) : isLineTerminator (b64char i) = false.
Proof.
  pose proof (b64char_range i) as H. unfold isLineTerminator.
  rewrite !orb_false_iff, !N.eqb_neq. lia.
Qed.

Lemma base64_three (P : list N -> Prop) :
  P [] -> (forall a, P [a]) -> (forall a b, P [a; b]) ->
  (forall a b c rest, P rest -> P (a :: b :: c :: rest)) ->
  forall bs, P bs.
Proof.
  intros H0 H1 H2 H3 bs.
  assert (H : P bs /\ (forall a, P (a :: bs)) /\ (forall a b, P (a :: b :: bs))).
  { induction bs as [|c bs (IH0 & IH1 & IH2)]; [by repeat split|].
    split; [apply IH1|]. split; [intros a; apply IH2|].
    intros a b. by apply H3. }
  apply H.
Qed.

(** The base64 text has no line terminator, and it is empty only for the
    empty file. *)
Lemma base64_encode_one_line (bs : list N) :
  forallb (fun c => negb (isLineTerminator c)) (base64_encode bs) = true.
Proof.
  induction bs as [|a|a b|a b c rest IH] using base64_three; simpl;
    rewrite ?b64char_not_terminator; simpl; [done..|exact IH].
Qed.

Lemma base64_encode_truthy (bs : list N) :
  truthy (base64_encode bs) = match bs with [] => false | _ :: _ => true end.
Proof. by destruct bs as [|a [|b [|c rest]]]. Qed.

(** A file of a type image/<word> is handed on, unless it is empty. *)
Lemma image_file_selected (file : File) (w : jsstring) :
  type file = lit "image/" ++ w -> w <> [] -> forallb isWordChar w = true ->
  handleFileChange [file]
  = Some (match octets file with
          | [] => InvalidFormatAlert
          | _ :: _ =>
              ImageSelected {| base64 := base64_encode (octets file);
                               mimeType := type file |}
          end).
Proof.
  intros Htype Hne Hw. unfold handleFileChange, onloadend, readAsDataURL.
  rewrite Htype. change (truthy (lit "image/" ++ w)) with true. cbv iota.
  rewrite (proj2 (matchDataUrl_spec _ (lit "image/" ++ w) (base64_encode (octets file)))).
  - rewrite base64_encode_truthy. by destruct (octets file).
  - exists w. rewrite <- !app_assoc.
    repeat split; [done..|apply base64_encode_one_line].
Qed.

(** C4 as stated fails: a GIF file, whose content type is not one of
    PNG, JPEG and WEBP, yields a payload all the same. *)
Lemma gif_file_is_accepted :
  ~ ((exists image, handleFileChange [Samples.gifFile] = Some (ImageSelected image))
     <-> type Samples.gifFile ∈ allowList).
Proof.
  intros [Hiff _].
  assert (Hin : type Samples.gifFile ∈ allowList).
  { apply Hiff. by eexists. }
  apply list_elem_of_In in Hin. vm_compute in Hin.
  repeat destruct Hin as [Hin|Hin]; discriminate || done.
Qed.

(** C4, amended.  The handler creates a payload exactly from a data URL
    of the form data:image/<word characters>;base64,<payload>, with at
    least one word character, a payload that is not empty and has no line
    terminator; the payload and the content type are taken from the URL.
    So every file of a type image/<word characters> that is not empty
    yields a payload (its base64 text, with its type), the types PNG, JPEG
    and WEBP among them; an empty file yields the alert and no payload. *)
Theorem uploader_accepts_image_word_types :
  (forall (base64String : jsstring) (image : ImageData),
     onloadend base64String = ImageSelected image <->
     exists w,
       base64String
       = lit "data:" ++ lit "image/" ++ w ++ lit ";base64," ++ base64 image
       /\ w <> [] /\ forallb isWordChar w = true
       /\ base64 image <> []
       /\ forallb (fun c => negb (isLineTerminator c)) (base64 image) = true
       /\ mimeType image = lit "image/" ++ w)
  /\ (forall (file : File) (w : jsstring),
        type file = lit "image/" ++ w -> w <> [] -> forallb isWordChar w = true ->
        handleFileChange [file]
        = Some (match octets file with
                | [] => InvalidFormatAlert
                | _ :: _ =>
                    ImageSelected {| base64 := base64_encode (octets file);
                                     mimeType := type file |}
                end))
  /\ (forall file : File,
        type file ∈ allowList ->
        handleFileChange [file]
        = Some (match octets file with
                | [] => InvalidFormatAlert
                | _ :: _ =>
                    ImageSelected {| base64 := base64_encode (octets file);
                                     mimeType := type file |}
                end)).
Proof.
  split; [|split].
  - intros s image. unfold onloadend. split.
    + destruct (matchDataUrl s) as [[m d]|] eqn:Hmatch; [|done].
      apply matchDataUrl_spec in Hmatch as (w & -> & Hne & Hw & Hd & ->).
      destruct d as [|c d]; [done|].
      destruct w as [|a w]; [done|]. cbn [truthy andb app lit].
      intros [= <-]. exists (a :: w). by repeat split.
    + intros (w & -> & Hne & Hw & Hd & Hline & Hm).
      rewrite (proj2 (matchDataUrl_spec _ (lit "image/" ++ w) (base64 image)))
        by (exists w; by repeat split).
      destruct image as [d m]; simpl in *. subst m.
      by destruct d as [|c d].
  - apply image_file_selected.
  - intros file Hin. apply list_elem_of_In in Hin.
    destruct Hin as [H|[H|[H|[]]]]; symmetry in H.
    + by apply (image_file_selected file (lit "png")).
    + by apply (image_file_selected file (lit "jpeg")).
    + by apply (image_file_selected file (lit "webp")).
Qed.

Lemma uploader_accepts_image_word_types_witness :
  type Samples.pngFile ∈ allowList
  /\ handleFileChange [Samples.pngFile]
     = Some (ImageSelected {| base64 := lit "iVBO"; mimeType := lit "image/png" |}).
Proof.
  assert (Hin : type Samples.pngFile ∈ allowList) by (apply list_elem_of_In; by left).
  split; [exact Hin|].
  destruct uploader_accepts_image_word_types as (_ & _ & Hallowed).
  exact (Hallowed Samples.pngFile Hin).
Defined.

(** A file that is no image is turned away. *)
Example text_file_is_rejected :
  handleFileChange [Samples.textFile] = Some InvalidFormatAlert.
Proof. reflexivity. Qed.

End ImageUploaderFacts.


(** ** The session list: selecting, deleting, adding, updating *)

Module AppHandlersFacts.
Import App AppHandlers.

Lemma find_filter_implied {A} (p q : A -> bool) (l : list A) :
  (forall x, p x = true -> q x = true) ->
  find p (List.filter q l) = find p l.
Proof.
  intros Hpq. induction l as [|x l IH]; simpl; [done|].
  destruct (q x) eqn:Hq; simpl.
  - by destruct (p x).
  - destruct (p x) eqn:Hp; [|done]. rewrite (Hpq x Hp) in Hq. done.
Qed.

(** Deleting a chat removes every session with that id and nothing else,
    keeps the order of the others, clears the selection when the deleted
    chat was the active one, and otherwise leaves the active session as
    it was. *)
Theorem delete_removes_only_that_chat (chatId : jsstring) (st : State) :
  (forall s, s ∈ chatHistory (handleDeleteChat chatId st)
             <-> s ∈ chatHistory st /\ id s <> chatId)
  /\ sublist (chatHistory (handleDeleteChat chatId st)) (chatHistory st)
  /\ (activeChatId st = Some chatId ->
      activeChatSession (handleDeleteChat chatId st) = None)
  /\ (activeChatId st <> Some chatId ->
      activeChatSession (handleDeleteChat chatId st) = activeChatSession st).
Proof.
  split; [|split; [|split]].
  - intros s. simpl. rewrite !list_elem_of_In, filter_In, negb_true_iff.
    by rewrite bool_decide_eq_false.
  - apply GatewayFacts.filter_sublist.
  - intros Hactive. unfold activeChatSession, handleDeleteChat. simpl.
    by rewrite decide_True.
  - intros Hother. unfold activeChatSession, handleDeleteChat. simpl.
    rewrite decide_False by done.
    destruct (activeChatId st) as [a|]; [|done].
    apply find_filter_implied. intros x Hx.
    apply bool_decide_eq_true in Hx. apply negb_true_iff, bool_decide_eq_false.
    congruence.
Qed.

Lemma delete_removes_only_that_chat_witness :
  activeChatId (Chatbot.app Samples.openWorld) <> Some (lit "other")
  /\ activeChatSession (handleDeleteChat (lit "other") (Chatbot.app Samples.openWorld))
     = Some Samples.earlierSession
  /\ activeChatSession
       (handleDeleteChat (lit "1700000000000") (Chatbot.app Samples.openWorld))
     = None.
Proof.
  assert (Hne : activeChatId (Chatbot.app Samples.openWorld) <> Some (lit "other")).
  { vm_compute. discriminate. }
  destruct (delete_removes_only_that_chat (lit "other") (Chatbot.app Samples.openWorld))
    as (_ & _ & _ & Hkeep).
  destruct (delete_removes_only_that_chat (lit "1700000000000")
              (Chatbot.app Samples.openWorld)) as (_ & _ & Hclear & _).
  split; [exact Hne|]. split; [exact (Hkeep Hne)|]. exact (Hclear eq_refl).
Defined.

Lemma update_ids (updatedSession : ChatSession) (st : State) :
  id <$> chatHistory (handleUpdateSession updatedSession st)
  = id <$> chatHistory st.
Proof.
  unfold handleUpdateSession. simpl.
  induction (chatHistory st) as [|x h IH]; [done|].
  rewrite !fmap_cons, IH. f_equal.
  by destruct (decide (id x = id updatedSession)).
Qed.

(** Updating a session never changes how many sessions there are, their
    ids or their order, nor the selection; and an update for an id that
    no session has changes nothing at all. *)
Theorem update_keeps_ids (updatedSession : ChatSession) (st : State) :
  id <$> chatHistory (handleUpdateSession updatedSession st)
  = id <$> chatHistory st
  /\ length (chatHistory (handleUpdateSession updatedSession st))
     = length (chatHistory st)
  /\ activeChatId (handleUpdateSession updatedSession st) = activeChatId st
  /\ (Forall (fun s => id s <> id updatedSession) (chatHistory st) ->
      handleUpdateSession updatedSession st = st).
Proof.
  split; [apply update_ids|].
  unfold handleUpdateSession. simpl. split; [|split].
  - by rewrite length_fmap.
  - done.
  - intros Hall. destruct st as [h a]. simpl in *. f_equal.
    induction Hall as [|x h Hx _ IH]; [done|].
    by rewrite fmap_cons, decide_False, IH.
Qed.

Lemma update_keeps_ids_witness :
  Forall (fun s => id s <> lit "other") (chatHistory (Chatbot.app Samples.openWorld))
  /\ handleUpdateSession
       {| id := lit "other"; title := []; messages := [];
          model := gemini_2_5_pro |} (Chatbot.app Samples.openWorld)
     = Chatbot.app Samples.openWorld.
Proof.
  assert (H : Forall (fun s => id s <> lit "other")
                (chatHistory (Chatbot.app Samples.openWorld))).
  { repeat constructor. vm_compute. discriminate. }
  split; [exact H|].
  destruct (update_keeps_ids
              {| id := lit "other"; title := []; messages := [];
                 model := gemini_2_5_pro |} (Chatbot.app Samples.openWorld))
    as (_ & _ & _ & Hsame).
  exact (Hsame H).
Defined.

(** Adding a session under a fresh id and deleting it again gives back
    the list of sessions, with no chat selected. *)
Theorem add_then_delete (newSession : ChatSession) (st : State) :
  Forall (fun s => id s <> id newSession) (chatHistory st) ->
  handleDeleteChat (id newSession) (handleAddNewSession newSession st)
  = handleNewChat st.
Proof.
  intros Hfresh. unfold handleDeleteChat, handleAddNewSession, handleNewChat.
  simpl. rewrite bool_decide_eq_true_2 by done. simpl.
  rewrite decide_True by done. f_equal.
  induction Hfresh as [|x h Hx _ IH]; simpl; [done|].
  by rewrite bool_decide_eq_false_2, IH.
Qed.

Lemma add_then_delete_witness :
  Forall (fun s => id s <> lit "1700000000999")
    (chatHistory (Chatbot.app Samples.openWorld))
  /\ handleDeleteChat (lit "1700000000999")
       (handleAddNewSession
          {| id := lit "1700000000999"; title := lit "t"; messages := [];
             model := gemini_2_5_flash |} (Chatbot.app Samples.openWorld))
     = handleNewChat (Chatbot.app Samples.openWorld).
Proof.
  assert (H : Forall (fun s => id s <> lit "1700000000999")
                (chatHistory (Chatbot.app Samples.openWorld))).
  { repeat constructor. vm_compute. discriminate. }
  split; [exact H|].
  exact (add_then_delete
           {| id := lit "1700000000999"; title := lit "t"; messages := [];
              model := gemini_2_5_flash |} (Chatbot.app Samples.openWorld) H).
Defined.

End AppHandlersFacts.


(** ** The chat controller: the guard, the open stream, the rollback *)

Module ChatbotMoreFacts.
Import Chatbot ChatbotHandlers JSFacts AppFacts ChatbotFacts.

Lemma trim_blank (s : jsstring) : forallb isWhiteSpace s = true -> trim s = [].
Proof.
  intros H. unfold trim, trimEnd.
  assert (Hs : trimStart s = []).
  { induction s as [|c s IH]; simpl in *; [done|].
    apply andb_true_iff in H as [-> H]. by apply IH. }
  by rewrite Hs.
Qed.

(** A submission of an input that is empty or all white space, or made
    before the chat is set up, is ignored: nothing in the component or in
    the session list changes and no request is started. *)
Theorem blank_input_is_ignored (w : World) :
  forallb isWhiteSpace (input (bot w)) = true \/ chat (bot w) = None ->
  submit w = w.
Proof.
  intros H. unfold submit, handleSubmit.
  destruct H as [H|H].
  - by rewrite (trim_blank _ H).
  - rewrite H. rewrite (bool_decide_eq_false_2 (is_Some None)) by (by intros [? ?]).
    simpl. by rewrite orb_true_r.
Qed.

Lemma blank_input_is_ignored_witness :
  forallb isWhiteSpace (lit "  ") = true
  /\ submit (setInput (lit "  ") Samples.openWorld)
     = setInput (lit "  ") Samples.openWorld.
Proof.
  split; [reflexivity|].
  exact (blank_input_is_ignored (setInput (lit "  ") Samples.openWorld)
           (or_introl eq_refl)).
Defined.

Section WithSDK.

Variable createChat : ModelName -> list ChatMessage -> Exn Chat.

Abbreviation step := (Chatbot.step createChat).
Abbreviation run := (Chatbot.run createChat).

Lemma step_keeps_streaming (a : App.State) (earlier : list ChatMessage)
    (u : ChatMessage) (sub : Submission) (w : World) (ev : Event) :
  Types.role u = role_user -> midStream ev = true ->
  streamingOn a earlier u sub w ->
  streamingOn a earlier u sub (step w ev) /\ crashed (step w ev) = crashed w.
Proof.
  intros Hu Hev (Happ & Hload & (full & Hin) & shown & Hmsgs & Hshown).
  destruct ev as [|text| |]; try discriminate.
  - unfold Chatbot.step. destruct (timers w) as [|n].
    + split; [|done]. repeat split; eauto.
    + simpl. split; [|done]. repeat split; eauto.
      exists (shown ++ [modelTurn []]). rewrite Hmsgs. unfold addPlaceholder.
      split; [by rewrite <- app_assoc|].
      apply Forall_app. split; [done|]. by repeat constructor.
  - destruct shown as [|m shown _] using rev_ind.
    + rewrite (step_chunk_user createChat w _ u text Hin);
        [|by rewrite Hmsgs, last_snoc'|done].
      simpl. split; [|done]. repeat split; eauto.
    + apply Forall_app in Hshown as [Hshown Hm].
      inversion Hm as [|? ? Hrole _]; subst.
      destruct m as [r c]. simpl in Hrole. subst r.
      rewrite (step_chunk_model createChat w _ (earlier ++ u :: shown) c text Hin)
        by (by rewrite Hmsgs, <- app_assoc).
      simpl. split; [|done]. repeat split; eauto.
      eexists. split; [by rewrite <- app_assoc|].
      apply Forall_app. split; [done|]. by repeat constructor.
Qed.

(** While the stream of an accepted submission is open, whatever chunks
    arrive and whenever the timer fires: the session list is not touched,
    the earlier turns and the user turn stay on screen as they were and
    only assistant turns follow them, no state updater throws, the
    component stays loading, and a further submission is ignored. *)
Theorem open_stream_invariant (w : World) (evs : list Event) :
  accepts (bot w) -> forallb midStream evs = true ->
  let w' := run (submit w) evs in
  streamingOn (app w) (messages (bot w)) (userTurn (bot w)) (submitted w) w'
  /\ crashed w' = crashed w
  /\ submit w' = w'.
Proof.
  intros Hacc Hevs. cbv zeta.
  assert (H : streamingOn (app w) (messages (bot w)) (userTurn (bot w))
                (submitted w) (run (submit w) evs)
              /\ crashed (run (submit w) evs) = crashed w).
  { induction evs as [|ev evs IH] using rev_ind.
    - rewrite (submit_accepted w Hacc). simpl. split; [|done].
      repeat split; [by exists []|]. by exists [].
    - rewrite forallb_app in Hevs. apply andb_true_iff in Hevs as [Hevs Hev].
      simpl in Hev. rewrite andb_true_r in Hev.
      destruct (IH Hevs) as [Hinv Hcrash].
      rewrite run_app. change (run ?x [ev]) with (step x ev).
      destruct (step_keeps_streaming (app w) (messages (bot w)) (userTurn (bot w))
                  (submitted w) (run (submit w) evs) ev eq_refl Hev Hinv)
        as [Hinv' Hc].
      split; [done|]. by rewrite Hc. }
  destruct H as [Hinv Hcrash]. split; [done|]. split; [done|].
  destruct Hinv as (_ & Hload & _).
  set (w' := run (submit w) evs) in *.
  unfold submit, handleSubmit. rewrite Hload. by rewrite orb_true_r.
Qed.

(** A stream that fails after the timer has added the placeholder: the
    transcript shown is the one from before the submission, whatever had
    been streamed, the session list is untouched, the message of the
    error is shown (the fixed text when it has none), the input stays
    cleared, and the next non-blank input is accepted again. *)
Theorem failed_submission_is_rolled_back (w : World)
    (chunks : list (option jsstring)) (k : nat) (message : option jsstring) :
  accepts (bot w) -> (k <= length chunks)%nat ->
  let w' := run (submit w) (schedule k chunks (StreamError message)) in
  messages (bot w') = messages (bot w)
  /\ app w' = app w
  /\ error (bot w')
     = Some (if truthy_opt message then default [] message
             else unexpectedErrorText)
  /\ isLoading (bot w') = false /\ input (bot w') = []
  /\ inflight w' = None /\ crashed w' = crashed w
  /\ forall text, truthy (trim text) = true -> accepts (bot (setInput text w')).
Proof.
  intros Hacc Hk. cbv zeta. unfold schedule.
  rewrite (proj2 (Nat.leb_le _ _) Hk).
  replace ((Chunk <$> take k chunks) ++ Timeout :: (Chunk <$> drop k chunks)
             ++ [StreamError message])
    with (((Chunk <$> take k chunks) ++ Timeout :: (Chunk <$> drop k chunks))
            ++ [StreamError message])
    by (by rewrite <- app_assoc).
  rewrite run_app, (run_stream_placeholder createChat w chunks k Hacc Hk).
  destruct Hacc as (_ & _ & Hchat). simpl.
  split; [|split; [done|split]].
  - rewrite <- app_assoc. apply (slice0_neg_app (messages (bot w)) [_; _]).
  - destruct message as [[|c m]|]; done.
  - repeat split; done.
Qed.

Lemma foldl_append_textOf (chunks : list (option jsstring)) (acc : jsstring) :
  foldl append_text acc chunks = acc ++ concat (textOf <$> chunks).
Proof.
  revert acc. induction chunks as [|c chunks IH]; intros acc; simpl.
  - by rewrite app_nil_r.
  - rewrite IH. unfold append_text, textOf. rewrite <- app_assoc.
    by destruct c.
Qed.

(** A chunk without text is not skipped: [+=] turns the missing text
    into the word "undefined", so the assistant turn written at the end
    of the stream is the concatenation of the chunk texts with
    "undefined" standing for each chunk that has none. *)
Theorem chunk_without_text_reads_undefined (w : World)
    (chunks : list (option jsstring)) (k : nat) (now : jsstring) :
  accepts (bot w) ->
  let w' := run (submit w) (schedule k chunks (StreamEnd now)) in
  exists s,
    App.activeChatSession (app w') = Some s
    /\ Types.messages s
       = messages (bot w)
           ++ [userTurn (bot w); modelTurn (concat (textOf <$> chunks))].
Proof.
  intros Hacc.
  destruct (submission_completes createChat w chunks k now Hacc)
    as ((s & Hs & Hm & _) & _).
  cbv zeta. exists s. split; [done|].
  rewrite Hm, foldl_append_textOf, <- app_assoc. reflexivity.
Qed.

(** The session list after a completed submission. *)
Lemma completed_app (w : World) (chunks : list (option jsstring))
    (k : nat) (now : jsstring) :
  accepts (bot w) ->
  let updatedMessages :=
    (messages (bot w) ++ [userTurn (bot w)])
      ++ [modelTurn (foldl append_text [] chunks)] in
  app (run (submit w) (schedule k chunks (StreamEnd now)))
  = match App.activeChatSession (app w) with
    | Some s =>
        App.handleUpdateSession
          {| id := id s; title := title s; Types.messages := updatedMessages;
             model := Types.model s |} (app w)
    | None =>
        App.handleAddNewSession
          {| id := now; title := sessionTitle (input (bot w));
             Types.messages := updatedMessages;
             model := if useProModel (bot w) then gemini_2_5_pro
                      else gemini_2_5_flash |} (app w)
    end.
Proof.
  intros Hacc. cbv zeta. unfold schedule.
  destruct (k <=? length chunks)%nat eqn:Hk.
  - apply Nat.leb_le in Hk.
    replace ((Chunk <$> take k chunks) ++ Timeout :: (Chunk <$> drop k chunks)
               ++ [StreamEnd now])
      with (((Chunk <$> take k chunks) ++ Timeout :: (Chunk <$> drop k chunks))
              ++ [StreamEnd now])
      by (by rewrite <- app_assoc).
    rewrite run_app, (run_stream_placeholder createChat w chunks k Hacc Hk).
    reflexivity.
  - rewrite run_app, (run_stream_no_placeholder createChat w chunks Hacc).
    reflexivity.
Qed.

(** A completed submission changes one session only.  In an open
    session, the sessions keep their ids, order and number, the selection
    stays, and every session with another id is exactly as before; in a
    fresh conversation, the new session is put in front of the others,
    which are as before, and is selected under the id [now]. *)
Theorem completion_changes_one_session (w : World)
    (chunks : list (option jsstring)) (k : nat) (now : jsstring) :
  accepts (bot w) ->
  let a := app w in
  let a' := app (run (submit w) (schedule k chunks (StreamEnd now))) in
  (forall s, App.activeChatSession a = Some s ->
     id <$> App.chatHistory a' = id <$> App.chatHistory a
     /\ App.activeChatId a' = App.activeChatId a
     /\ forall i x, App.chatHistory a !! i = Some x -> id x <> id s ->
                    App.chatHistory a' !! i = Some x)
  /\ (App.activeChatSession a = None ->
      exists created,
        App.chatHistory a' = created :: App.chatHistory a
        /\ App.activeChatId a' = Some now /\ id created = now).
Proof.
  intros Hacc. cbv zeta. rewrite (completed_app w chunks k now Hacc). split.
  - intros s Hs. rewrite Hs.
    split; [apply AppHandlersFacts.update_ids|]. split; [done|].
    intros i x Hx Hne. simpl. rewrite list_lookup_fmap, Hx. simpl.
    by rewrite decide_False.
  - intros Hnone. rewrite Hnone. by eexists.
Qed.

End WithSDK.

Lemma failed_submission_is_rolled_back_witness :
  accepts (bot Samples.openWorld)
  /\ messages
       (bot (Chatbot.run Samples.createChat (submit Samples.openWorld)
               (schedule 0 [Some (lit "He")] (StreamError (Some (lit "offline"))))))
     = Samples.earlierTurns.
Proof.
  assert (Hacc : accepts (bot Samples.openWorld)).
  { repeat split; [vm_compute; reflexivity.. | by eexists]. }
  split; [exact Hacc|].
  destruct (failed_submission_is_rolled_back Samples.createChat Samples.openWorld
              [Some (lit "He")] 0 (Some (lit "offline")) Hacc) as (H & _).
  { simpl. lia. }
  exact H.
Defined.

Lemma chunk_without_text_reads_undefined_witness :
  accepts (bot Samples.freshWorld)
  /\ exists s,
       App.activeChatSession
         (app (Chatbot.run Samples.createChat (submit Samples.freshWorld)
                 (schedule 0 [Some (lit "Hi"); None] (StreamEnd (lit "1")))))
       = Some s
       /\ Types.messages s
          = [ {| Types.role := role_user; Types.content := lit "Hello" |};
              {| Types.role := role_model; Types.content := lit "Hiundefined" |} ].
Proof.
  assert (Hacc : accepts (bot Samples.freshWorld)).
  { repeat split; [vm_compute; reflexivity.. | by eexists]. }
  split; [exact Hacc|].
  exact (chunk_without_text_reads_undefined Samples.createChat Samples.freshWorld
           [Some (lit "Hi"); None] 0 (lit "1") Hacc).
Defined.

Lemma completion_changes_one_session_witness :
  accepts (bot Samples.freshWorld)
  /\ App.activeChatSession (app Samples.freshWorld) = None
  /\ exists created,
       App.chatHistory
         (app (Chatbot.run Samples.createChat (submit Samples.freshWorld)
                 (schedule 0 [Some (lit "Hi!")] (StreamEnd (lit "1700000000999")))))
       = created :: App.chatHistory (app Samples.freshWorld)
       /\ id created = lit "1700000000999".
Proof.
  assert (Hacc : accepts (bot Samples.freshWorld)).
  { repeat split; [vm_compute; reflexivity.. | by eexists]. }
  split; [exact Hacc|]. split; [reflexivity|].
  destruct (completion_changes_one_session Samples.createChat Samples.freshWorld
              [Some (lit "Hi!")] 0 (lit "1700000000999") Hacc) as (_ & Hnew).
  destruct (Hnew eq_refl) as (created & Hh & _ & Hid).
  exists created. by split.
Defined.

Lemma open_stream_invariant_witness :
  accepts (bot Samples.openWorld)
  /\ streamingOn (app Samples.openWorld) Samples.earlierTurns
       (userTurn (bot Samples.openWorld)) (submitted Samples.openWorld)
       (Chatbot.run Samples.createChat (submit Samples.openWorld)
          [Chunk (Some (lit "He")); Timeout; Chunk (Some (lit "llo"))]).
Proof.
  assert (Hacc : accepts (bot Samples.openWorld)).
  { repeat split; [vm_compute; reflexivity.. | by eexists]. }
  split; [exact Hacc|].
  destruct (open_stream_invariant Samples.createChat Samples.openWorld
              [Chunk (Some (lit "He")); Timeout; Chunk (Some (lit "llo"))]
              Hacc eq_refl) as (H & _).
  exact H.
Defined.

End ChatbotMoreFacts.


(** ** The chat controller: switching the model *)

Module ModelChangeFacts.
Import Chatbot ChatbotHandlers AppFacts.

Section WithSDK.

Variable createChat : ModelName -> list ChatMessage -> Exn Chat.

Lemma initializeChat_cells (m : ModelName) (h : list ChatMessage) (st : State) :
  messages (initializeChat createChat m h st) = messages st
  /\ input (initializeChat createChat m h st) = input st
  /\ useProModel (initializeChat createChat m h st) = useProModel st
  /\ isLoading (initializeChat createChat m h st) = false
  /\ (is_Some (chat st) -> is_Some (chat (initializeChat createChat m h st)))
  /\ (forall c, createChat m h = Ok c ->
        chat (initializeChat createChat m h st) = Some c).
Proof.
  unfold initializeChat. destruct (createChat m h) as [c|e]; simpl.
  - repeat split; [by eexists|]. by intros ? [= ->].
  - repeat split; done.
Qed.

(** Switching the model records the new model on the active session and
    changes nothing else in the session list: the session keeps its id,
    title and turns, and the sessions keep their ids and order.  The
    component then shows the turns of the session (its own transcript
    when no session is active), the checkbox shows the choice, and the
    chat is the one the SDK creates for the new model from the turns
    shown. *)
Theorem model_change_keeps_turns (isPro : bool) (w : World) :
  let w' := handleModelChange createChat isPro w in
  let newModel := if isPro then gemini_2_5_pro else gemini_2_5_flash in
  (forall s, App.activeChatSession (app w) = Some s ->
     App.activeChatSession (app w')
     = Some {| id := id s; title := title s; Types.messages := Types.messages s;
               model := newModel |}
     /\ id <$> App.chatHistory (app w') = id <$> App.chatHistory (app w)
     /\ messages (bot w') = Types.messages s)
  /\ (App.activeChatSession (app w) = None ->
      app w' = app w /\ messages (bot w') = messages (bot w))
  /\ useProModel (bot w') = isPro
  /\ (forall c, createChat newModel (messages (bot w')) = Ok c ->
        chat (bot w') = Some c).
Proof.
  cbv zeta. unfold handleModelChange.
  destruct (App.activeChatSession (app w)) as [s|] eqn:Hs; cbn [app bot].
  - set (s' := {| id := id s; title := title s;
                  Types.messages := Types.messages s;
                  model := if isPro then gemini_2_5_pro else gemini_2_5_flash |}).
    rewrite (active_after_update (app w) s s' Hs eq_refl).
    unfold sessionEffect.
    match goal with
    | |- context [initializeChat createChat ?m ?h ?st] =>
        destruct (initializeChat_cells m h st) as (Hm & _ & Hp & _ & _ & Hc)
    end.
    rewrite Hm, Hp. cbn [messages useProModel]. split; [|split; [done|split]].
    + intros ? [= <-]. split; [done|]. split; [|done].
      apply AppHandlersFacts.update_ids.
    + subst s'. simpl. by destruct isPro.
    + exact Hc.
  - destruct (initializeChat_cells
                (if isPro then gemini_2_5_pro else gemini_2_5_flash)
                (messages (bot w))
                {| chat := chat (bot w); messages := messages (bot w);
                   input := input (bot w); isLoading := isLoading (bot w);
                   error := error (bot w); useProModel := isPro |})
      as (Hm & _ & Hp & _ & _ & Hc).
    rewrite Hm, Hp. cbn [messages useProModel].
    split; [done|]. split; [done|]. split; [done|]. exact Hc.
Qed.

(** The checkbox is not disabled while a reply is streaming, and
    switching the model there ends the loading state although the stream
    is still open: the next non-blank input passes the guard of
    [handleSubmit], so a second submission can start before the first has
    finished. *)
Theorem model_change_reopens_guard (isPro : bool) (w : World)
    (sub : Submission) (text : jsstring) :
  inflight w = Some sub -> is_Some (chat (bot w)) ->
  truthy (trim text) = true ->
  let w' := setInput text (handleModelChange createChat isPro w) in
  inflight w' = Some sub
  /\ isLoading (bot w') = false
  /\ accepts (bot w')
  /\ snd (handleSubmit (App.activeChatSession (app w')) (bot w')) <> None.
Proof.
  intros Hin Hchat Htext. cbv zeta.
  assert (H : inflight (handleModelChange createChat isPro w) = Some sub
              /\ isLoading (bot (handleModelChange createChat isPro w)) = false
              /\ is_Some (chat (bot (handleModelChange createChat isPro w)))).
  { unfold handleModelChange.
    match goal with
    | |- context [initializeChat createChat ?m ?h ?st] =>
        destruct (initializeChat_cells m h st) as (_ & _ & _ & Hl & Hc & _);
        set (st1 := initializeChat createChat m h st) in *
    end.
    specialize (Hc Hchat).
    destruct (App.activeChatSession (app w)) as [s|]; cbn [inflight bot].
    - unfold sessionEffect.
      match goal with
      | |- context [initializeChat createChat ?m ?h ?st] =>
          destruct (initializeChat_cells m h st) as (_ & _ & _ & Hl' & Hc' & _)
      end.
      split; [done|]. split; [done|]. by apply Hc'.
    - by repeat split. }
  destruct H as (Hin' & Hload & Hchat').
  assert (Hacc : accepts (bot (setInput text (handleModelChange createChat isPro w)))).
  { by repeat split. }
  split; [done|]. split; [done|]. split; [done|].
  unfold handleSubmit. destruct Hacc as (-> & -> & Hc).
  by rewrite (bool_decide_eq_true_2 _ Hc).
Qed.

End WithSDK.

Lemma model_change_keeps_turns_witness :
  App.activeChatSession (app Samples.openWorld) = Some Samples.earlierSession
  /\ messages (bot (handleModelChange Samples.createChat true Samples.openWorld))
     = Samples.earlierTurns
  /\ model <$> App.activeChatSession
                 (app (handleModelChange Samples.createChat true Samples.openWorld))
     = Some gemini_2_5_pro.
Proof.
  split; [reflexivity|].
  destruct (model_change_keeps_turns Samples.createChat true Samples.openWorld)
    as (Hopen & _).
  destruct (Hopen Samples.earlierSession eq_refl) as (Hactive & _ & Hshown).
  split; [exact Hshown|]. rewrite Hactive. reflexivity.
Defined.

Lemma model_change_reopens_guard_witness :
  is_Some (inflight Samples.streamingWorld)
  /\ isLoading (bot Samples.streamingWorld) = true
  /\ accepts
       (bot (setInput (lit "again")
               (handleModelChange Samples.createChat true Samples.streamingWorld))).
Proof.
  split; [by eexists|]. split; [reflexivity|].
  assert (Hchat : is_Some (chat (bot Samples.streamingWorld))) by (by eexists).
  destruct (model_change_reopens_guard Samples.createChat true
              Samples.streamingWorld _ (lit "again") eq_refl Hchat eq_refl)
    as (_ & _ & H & _).
  exact H.
Defined.

(** C10, at a failing input.  In [Samples.streamingWorld] the reply to
    "hi" is streaming in an open session of two turns; the guard of
    [handleSubmit] holds there, and a submission is a no-op.  Then the
    model checkbox, which is not disabled while a reply streams, is
    ticked, and "again" is typed into the input, which is enabled again:
    the stream of the first submission is still open, the component
    is not loading and shows the 2 turns of the session, and the
    submission is not a no-op.  The transcript grows to 3 turns, the last
    one the new user turn, and a second request is started while the
    first is still streaming. *)
Theorem submit_during_stream_after_model_change :
  let streaming := Samples.streamingWorld in
  let typed :=
    setInput (lit "again")
      (handleModelChange Samples.createChat true streaming) in
  is_Some (inflight streaming)
  /\ isLoading (bot streaming) = true
  /\ submit streaming = streaming
  /\ inflight typed = inflight streaming
  /\ isLoading (bot typed) = false
  /\ messages (bot typed) = Samples.earlierTurns
  /\ messages (bot (submit typed))
     = Samples.earlierTurns ++ [ {| role := role_user; content := lit "again" |} ]
  /\ length (messages (bot typed)) = 2%nat
  /\ length (messages (bot (submit typed))) = 3%nat
  /\ submit typed <> typed
  /\ timers (submit typed) = S (timers typed)
  /\ inflight (submit typed) <> inflight typed.
Proof.
  cbv zeta. split; [by eexists|].
  repeat split; try reflexivity.
  - intros H. apply (f_equal (fun w => length (messages (bot w)))) in H.
    vm_compute in H. discriminate.
  - vm_compute. discriminate.
Qed.

End ModelChangeFacts.


(** ** The model gateway: credential, download, order of effects *)

Module GatewayMoreFacts.
Import Gateway GatewayMore GatewayFacts.

Section WithEnv.

Variable API_KEY : option jsstring.
Variable host : Host.
Variable fetchObjectURL : jsstring -> Exn jsstring.

(** Without a key at the first read, and without one when the host has
    been asked: [getApiKey] fails after its calls of the host. *)
Lemma getApiKey_unavailable :
  truthy_opt API_KEY = false ->
  truthy_opt (API_KEY_after host) = false ->
  getApiKey API_KEY host
  = (match hasSelectedApiKey host with
     | Ok false => [HasSelectedApiKey; OpenSelectKey]
     | _ => [HasSelectedApiKey]
     end,
     Throw match hasSelectedApiKey host with
           | Throw rejection => rejection
           | Ok true => CredentialUnavailable
           | Ok false =>
               match openSelectKey host with
               | Throw rejection => rejection
               | Ok _ => CredentialUnavailable
               end
           end).
Proof.
  intros Hkey Hafter. unfold getApiKey, keyAtRequest, selectKey.
  rewrite Hkey. cbn [negb].
  assert (Hread :
    match API_KEY_after host with
    | Some k => if truthy k then Ok k else Throw CredentialUnavailable
    | None => Throw CredentialUnavailable
    end = Throw CredentialUnavailable).
  { destruct (API_KEY_after host) as [k|]; [|done].
    simpl in Hafter. by rewrite Hafter. }
  destruct (hasSelectedApiKey host) as [[|]|rejection]; cbn.
  - by rewrite Hread.
  - destruct (openSelectKey host) as [[]|rejection]; cbn; [by rewrite Hread|done].
  - done.
Qed.

(** Without a key at the first read (none, or the empty string) the host
    is asked whether a key is selected, and its key dialog is opened when
    the answer is falsy.  When there is still no key after that, every
    operation of the gateway fails, whatever the provider would have
    answered: with the rejection of the host when one of its calls is
    rejected, with [CredentialUnavailable] otherwise.  All that
    [animateImageWithVeo] does before it fails are these calls of the
    host: no wait, no status request, no download. *)
Theorem no_credential_no_request
    (content : Exn SDK.GenerateContentResponse)
    (images : Exn SDK.GenerateImagesResponse)
    (started : Exn SDK.Operation) (replies : list (Exn SDK.Operation)) :
  truthy_opt API_KEY = false ->
  truthy_opt (API_KEY_after host) = false ->
  let asked :=
    match hasSelectedApiKey host with
    | Ok false => [HasSelectedApiKey; OpenSelectKey]
    | _ => [HasSelectedApiKey]
    end in
  let failure :=
    match hasSelectedApiKey host with
    | Throw rejection => rejection
    | Ok true => CredentialUnavailable
    | Ok false =>
        match openSelectKey host with
        | Throw rejection => rejection
        | Ok _ => CredentialUnavailable
        end
    end in
  editImageWithPrompt API_KEY host content = Throw failure
  /\ generateImageWithPrompt API_KEY host images = Throw failure
  /\ analyzeImage API_KEY host content = Throw failure
  /\ searchWithGoogle API_KEY host content = Throw failure
  /\ animateImageWithVeo API_KEY host fetchObjectURL started replies
     = (asked, Thrown failure).
Proof.
  intros Hkey Hafter. cbv zeta.
  unfold editImageWithPrompt, generateImageWithPrompt, analyzeImage,
    searchWithGoogle, animateImageWithVeo, getAiClient.
  by rewrite (getApiKey_unavailable Hkey Hafter).
Qed.

(** Whenever [generateImageWithPrompt] returns, there was a key (at the
    read that follows the calls of the host, when the first read found
    none), the provider replied, and the payload is the bytes of the
    first generated image, not empty, tagged image/png. *)
Theorem generateImage_returns_first_png
    (reply : Exn SDK.GenerateImagesResponse) (img : ImageData) :
  generateImageWithPrompt API_KEY host reply = Ok img ->
  truthy_opt (keyAtRequest API_KEY host) = true
  /\ mimeType img = lit "image/png"
  /\ base64 img <> []
  /\ exists response others,
       reply = Ok response
       /\ SDK.generatedImages response
          = Some ({| SDK.image := Some {| SDK.imageBytes := Some (base64 img) |} |}
                    :: others).
Proof.
  unfold generateImageWithPrompt, getAiClient, getApiKey.
  destruct (if negb (truthy_opt API_KEY) then selectKey host else ([], Ok ()))
    as [asked [[]|rejection]]; simpl; [|done].
  destruct (keyAtRequest API_KEY host) as [[|c k]|]; simpl; try done.
  destruct reply as [[[[|[[[[bytes|]]|]] others]|]]|e]; simpl; try done.
  destruct bytes as [|b bytes]; simpl; [done|].
  intros [= <-]. simpl. repeat split; [done|]. by eexists _, _.
Qed.

(** With a key at the first read the host is asked nothing; without one
    it is asked whether a key is selected, and then at most for its
    dialog. *)
Lemma getApiKey_asked :
  (truthy_opt API_KEY = true -> (getApiKey API_KEY host).1 = [])
  /\ (truthy_opt API_KEY = false ->
      (getApiKey API_KEY host).1 = [HasSelectedApiKey]
      \/ (getApiKey API_KEY host).1 = [HasSelectedApiKey; OpenSelectKey]).
Proof.
  unfold getApiKey, selectKey. split; intros ->; cbn [negb]; [done|].
  destruct (hasSelectedApiKey host) as [[|]|rejection]; cbn; auto.
Qed.

(** [getApiKey] returns a key only when there is one at its second
    read. *)
Lemma getApiKey_returns (apiKey : jsstring) :
  (getApiKey API_KEY host).2 = Ok apiKey ->
  keyAtRequest API_KEY host = Some apiKey /\ truthy apiKey = true.
Proof.
  unfold getApiKey.
  destruct (if negb (truthy_opt API_KEY) then selectKey host else ([], Ok ()))
    as [asked [[]|rejection]]; simpl; [|done].
  destruct (keyAtRequest API_KEY host) as [k|]; [|done].
  destruct (truthy k) eqn:Hk; [|done]. by intros [= ->].
Qed.

Lemma pollLoop_shape (replies : list (Exn SDK.Operation)) (operation : SDK.Operation) :
  exists n,
    (n <= S (length replies))%nat
    /\ (notDone operation = false -> n = 0%nat)
    /\ ((pollLoop host operation replies).1 = pollRounds n
        \/ (pollLoop host operation replies).1 = pollRounds n ++ [OpenSelectKey]
           /\ (pollLoop host operation replies).2
              = Thrown match reopenSelectKey host with
                       | Ok _ => CredentialInvalidated
                       | Throw rejection => rejection
                       end).
Proof.
  revert operation. induction replies as [|r replies IH]; intros operation.
  - simpl. destruct (notDone operation).
    + exists 1%nat. split; [lia|]. split; [done|]. by left.
    + exists 0%nat. split; [lia|]. split; [done|]. by left.
  - cbn [pollLoop]. destruct (notDone operation).
    + destruct r as [operation'|e].
      * destruct (IH operation') as (n & Hn & _ & H).
        destruct (pollLoop host operation' replies) as [effs p]. simpl in *.
        exists (S n). split; [lia|]. split; [done|].
        destruct H as [->|[-> Hp]]; [by left|by right].
      * exists 1%nat. split; [simpl; lia|]. split; [done|].
        destruct (entityNotFound e) eqn:He; simpl; [right|by left].
        split; [done|]. by destruct (reopenSelectKey host).
    + exists 0%nat. split; [lia|]. split; [done|]. by left.
Qed.

(** What [animateImageWithVeo] does to the outside world always has the
    same shape, whatever the host and the provider reply.  First come the
    calls of the host that [getApiKey] makes: none with a key in place,
    otherwise the question whether a key is selected and then at most the
    key dialog.  Then come some rounds of a 5000 ms wait followed by one
    status request (none when the handle is done at the start, never more
    than one per reply plus one), and after them at most one more effect.
    That effect is the key dialog, and the call then fails (with
    [CredentialInvalidated], or with the rejection of the dialog), or it
    is the one download, and its result is then the result of the call;
    without a download the call does not return a video.  Whatever comes
    after the calls of [getApiKey] happens only with a key at its second
    read. *)
Theorem animate_effects_shape (started : SDK.Operation)
    (replies : list (Exn SDK.Operation)) :
  let run := animateImageWithVeo API_KEY host fetchObjectURL (Ok started) replies in
  let asked := (getApiKey API_KEY host).1 in
  (truthy_opt API_KEY = true -> asked = [])
  /\ (truthy_opt API_KEY = false ->
      asked = [HasSelectedApiKey] \/ asked = [HasSelectedApiKey; OpenSelectKey])
  /\ (run.1 <> asked -> truthy_opt (keyAtRequest API_KEY host) = true)
  /\ exists n,
       (n <= S (length replies))%nat
       /\ (notDone started = false -> n = 0%nat)
       /\ (run.1 = asked ++ pollRounds n
           /\ (forall objectUrl, run.2 <> Returned objectUrl)
           \/ run.1 = asked ++ pollRounds n ++ [OpenSelectKey]
              /\ run.2 = Thrown match reopenSelectKey host with
                                | Ok _ => CredentialInvalidated
                                | Throw rejection => rejection
                                end
           \/ exists url,
                run.1 = asked ++ pollRounds n ++ [Fetch url]
                /\ run.2 = match fetchObjectURL url with
                           | Ok objectUrl => Returned objectUrl
                           | Throw e => Thrown e
                           end).
Proof.
  cbv zeta. destruct getApiKey_asked as [Hnone Hsome].
  split; [exact Hnone|]. split; [exact Hsome|].
  unfold animateImageWithVeo.
  pose proof getApiKey_returns as Hret.
  destruct (getApiKey API_KEY host) as [asked [apiKey|e]]; cbn [fst snd] in *.
  2:{ split; [done|]. exists 0%nat. split; [lia|]. split; [done|]. left.
      split; [by rewrite app_nil_r|done]. }
  destruct (Hret apiKey eq_refl) as [Hkey Htruthy].
  split; [intros _; by rewrite Hkey|].
  destruct (pollLoop_shape replies started) as (n & Hn & H0 & H).
  exists n. split; [done|]. split; [done|].
  destruct (pollLoop host started replies) as [effs p]. cbn [fst snd] in H.
  destruct H as [->|[-> ->]]; [|by right; left].
  destruct p as [final|e|]; cbn [fst snd].
  - destruct (downloadLink final) as [[|c link]|]; cbn [truthy fst snd].
    + left. by split.
    + right; right. by eexists.
    + left. by split.
  - left. by split.
  - left. by split.
Qed.

(** A handle that finishes without a video link: the call fails with
    [NoVideoProduced] after its rounds of waiting and asking, and
    downloads nothing. *)
Theorem animate_without_video (apiKey : jsstring)
    (started final : SDK.Operation) (pending : list SDK.Operation)
    (later : list (Exn SDK.Operation)) :
  API_KEY = Some apiKey -> truthy apiKey = true ->
  notDone started = true ->
  Forall (fun op => notDone op = true) pending ->
  notDone final = false ->
  truthy_opt (downloadLink final) = false ->
  animateImageWithVeo API_KEY host fetchObjectURL (Ok started)
    ((Ok <$> pending) ++ Ok final :: later)
  = (pollRounds (S (length pending)), Thrown NoVideoProduced).
Proof.
  intros Hkey Htruthy Hstart Hpending Hfinal Hlink.
  pose proof (last_notDone pending started Hstart Hpending) as Hlast.
  unfold animateImageWithVeo.
  rewrite (getApiKey_available API_KEY host apiKey Hkey Htruthy).
  rewrite (pollLoop_pending host pending started _ Hstart Hpending).
  cbn [pollLoop]. rewrite Hlast, (pollLoop_done host final later Hfinal).
  cbn [fst snd]. rewrite pollRounds_S.
  destruct (downloadLink final) as [[|c link]|]; simpl in *; try done;
    by rewrite app_nil_r.
Qed.

(** A status request that fails ends the call there. *)
Lemma animate_poll_error (apiKey : jsstring) (started : SDK.Operation)
    (pending : list SDK.Operation) (e : Error) (later : list (Exn SDK.Operation)) :
  API_KEY = Some apiKey -> truthy apiKey = true ->
  notDone started = true ->
  Forall (fun op => notDone op = true) pending ->
  animateImageWithVeo API_KEY host fetchObjectURL (Ok started)
    ((Ok <$> pending) ++ Throw e :: later)
  = (pollRounds (S (length pending))
       ++ (if entityNotFound e then [OpenSelectKey] else []),
     Thrown (if entityNotFound e
             then match reopenSelectKey host with
                  | Ok _ => CredentialInvalidated
                  | Throw rejection => rejection
                  end
             else e)).
Proof.
  intros Hkey Htruthy Hstart Hpending.
  pose proof (last_notDone pending started Hstart Hpending) as Hlast.
  unfold animateImageWithVeo.
  rewrite (getApiKey_available API_KEY host apiKey Hkey Htruthy).
  rewrite (pollLoop_pending host pending started _ Hstart Hpending).
  cbn [pollLoop]. rewrite Hlast, pollRounds_S.
  destruct (entityNotFound e); cbn [fst snd].
  - destruct (reopenSelectKey host); by rewrite <- app_assoc.
  - by rewrite app_nil_r.
Qed.

End WithEnv.

Lemma no_credential_no_request_witness :
  truthy_opt None = false
  /\ truthy_opt (API_KEY_after Samples.host) = false
  /\ animateImageWithVeo None Samples.host Samples.fetchObjectURL
       (Ok Samples.runningOperation) [Ok Samples.finishedOperation]
     = ([HasSelectedApiKey; OpenSelectKey], Thrown CredentialUnavailable).
Proof.
  split; [reflexivity|]. split; [reflexivity|].
  destruct (no_credential_no_request None Samples.host Samples.fetchObjectURL
              (Throw TypeError) (Throw TypeError)
              (Ok Samples.runningOperation) [Ok Samples.finishedOperation]
              eq_refl eq_refl) as (_ & _ & _ & _ & H).
  exact H.
Defined.

(** A host call that is rejected is the failure of the operation. *)
Example rejected_host_call_is_the_failure :
  searchWithGoogle None MoreSamples.rejectingHost (Ok Samples.searchReply)
  = Throw MoreSamples.hostRejection
  /\ animateImageWithVeo None MoreSamples.rejectingHost Samples.fetchObjectURL
       (Ok Samples.runningOperation) [Ok Samples.finishedOperation]
     = ([HasSelectedApiKey], Thrown MoreSamples.hostRejection).
Proof. split; reflexivity. Qed.

Lemma generateImage_returns_first_png_witness :
  generateImageWithPrompt None MoreSamples.hostWithKey (Ok MoreSamples.imagesReply)
  = Ok {| base64 := lit "iVBO"; mimeType := lit "image/png" |}
  /\ truthy_opt (keyAtRequest None MoreSamples.hostWithKey) = true.
Proof.
  assert (H : generateImageWithPrompt None MoreSamples.hostWithKey
                (Ok MoreSamples.imagesReply)
              = Ok {| base64 := lit "iVBO"; mimeType := lit "image/png" |})
    by reflexivity.
  split; [exact H|].
  destruct (generateImage_returns_first_png None MoreSamples.hostWithKey _ _ H)
    as (Hkey & _).
  exact Hkey.
Defined.

Lemma animate_effects_shape_witness :
  notDone Samples.finishedOperation = false
  /\ exists url,
       (animateImageWithVeo None MoreSamples.hostWithKey Samples.fetchObjectURL
          (Ok Samples.finishedOperation) [Ok Samples.runningOperation]).1
       = [HasSelectedApiKey; OpenSelectKey; Fetch url].
Proof.
  split; [reflexivity|].
  destruct (animate_effects_shape None MoreSamples.hostWithKey
              Samples.fetchObjectURL
              Samples.finishedOperation [Ok Samples.runningOperation])
    as (_ & _ & _ & n & _ & Hzero & H).
  rewrite (Hzero eq_refl) in H.
  destruct H as [[H _]|[[H _]|(url & H & _)]].
  - vm_compute in H. discriminate.
  - vm_compute in H. discriminate.
  - exists url. exact H.
Defined.

Lemma animate_without_video_witness :
  truthy_opt (downloadLink MoreSamples.emptyOperation) = false
  /\ animateImageWithVeo (Some (lit "key")) Samples.host Samples.fetchObjectURL
       (Ok Samples.runningOperation) [Ok MoreSamples.emptyOperation]
     = ([Sleep 5000; GetVideosOperation], Thrown NoVideoProduced).
Proof.
  split; [reflexivity|].
  exact (animate_without_video (Some (lit "key")) Samples.host
           Samples.fetchObjectURL
           (lit "key") Samples.runningOperation MoreSamples.emptyOperation [] []
           eq_refl eq_refl eq_refl (Forall_nil_2 _) eq_refl eq_refl).
Defined.

End GatewayMoreFacts.


(** ** The video animator *)

Module VideoAnimatorFacts.
Import Gateway GatewayMore VideoAnimator.

Section WithEnv.

Variable engineMessage : Error -> option jsstring.
Variable API_KEY : option jsstring.
Variable host : Host.
Variable fetchObjectURL : jsstring -> Exn jsstring.

Lemma handleAnimate_invalid_key (dialog : Exn unit) (effs : list Effect)
    (st : State) (img : ImageData) :
  image st = Some img -> apiKeySelected st = true ->
  handleAnimate engineMessage dialog (effs, Thrown CredentialInvalidated) st
  = ({| image := image st; prompt := prompt st; aspectRatio := aspectRatio st;
        isLoading := false; error := Some invalidKeyText; videoUrl := None;
        apiKeySelected := false |}, effs).
Proof.
  intros Himg Hsel. unfold handleAnimate. rewrite Himg, Hsel. reflexivity.
Qed.

(** A status request that fails because the entity was not found, seen
    from the component, when the key dialog that the gateway then opens
    returns.  After the rounds of waiting and asking and that dialog, the
    component keeps the invalid key text, is no longer loading, has no
    video, and has forgotten that a key was selected: it renders the key
    panel alone, so the text is not displayed and there is no animate
    button.  The button of the key panel brings the animator back once
    its own dialog has returned, and only then is the invalid key text
    displayed, with the animate button enabled; as long as that dialog is
    rejected the component stays as it is. *)
Theorem invalid_key_forces_reselection (apiKey : jsstring)
    (started : SDK.Operation) (pending : list SDK.Operation) (e : Error)
    (later : list (Exn SDK.Operation)) (st : State) (img : ImageData)
    (dialog : Exn unit) :
  API_KEY = Some apiKey -> truthy apiKey = true ->
  notDone started = true ->
  Forall (fun op => notDone op = true) pending ->
  entityNotFound e = true ->
  reopenSelectKey host = Ok () ->
  image st = Some img -> apiKeySelected st = true ->
  let outcome :=
    animateImageWithVeo API_KEY host fetchObjectURL (Ok started)
      ((Ok <$> pending) ++ Throw e :: later) in
  let st' := (handleAnimate engineMessage dialog outcome st).1 in
  (handleAnimate engineMessage dialog outcome st).2
  = pollRounds (S (length pending)) ++ [OpenSelectKey]
  /\ apiKeySelected st' = false
  /\ error st' = Some invalidKeyText
  /\ isLoading st' = false /\ videoUrl st' = None /\ image st' = Some img
  /\ render st' = KeyPanel
  /\ handleSelectKey (Ok ()) st'
     = ({| image := Some img; prompt := prompt st; aspectRatio := aspectRatio st;
           isLoading := false; error := Some invalidKeyText; videoUrl := None;
           apiKeySelected := true |}, [OpenSelectKey])
  /\ render (handleSelectKey (Ok ()) st').1
     = Animator true (Some invalidKeyText) None false
  /\ forall rejection, (handleSelectKey (Throw rejection) st').1 = st'.
Proof.
  intros Hkey Htruthy Hstart Hpending He Hdialog Himg Hsel. cbv zeta.
  rewrite (GatewayMoreFacts.animate_poll_error API_KEY host fetchObjectURL apiKey
             started pending e later Hkey Htruthy Hstart Hpending).
  rewrite He, Hdialog, (handleAnimate_invalid_key dialog _ st img Himg Hsel).
  cbn [fst snd apiKeySelected error isLoading videoUrl image handleSelectKey
       prompt aspectRatio].
  rewrite Himg. repeat split; done.
Qed.

End WithEnv.

Lemma invalid_key_forces_reselection_witness :
  entityNotFound MoreSamples.entityNotFoundError = true
  /\ reopenSelectKey Samples.host = Ok ()
  /\ (handleAnimate MoreSamples.engineMessage (Ok ())
        (animateImageWithVeo (Some (lit "key")) Samples.host Samples.fetchObjectURL
           (Ok Samples.runningOperation)
           [Ok Samples.runningOperation; Throw MoreSamples.entityNotFoundError])
        MoreSamples.animatorReady).2
     = [Sleep 5000; GetVideosOperation; Sleep 5000; GetVideosOperation;
        OpenSelectKey]
  /\ render
       (handleAnimate MoreSamples.engineMessage (Ok ())
          (animateImageWithVeo (Some (lit "key")) Samples.host Samples.fetchObjectURL
             (Ok Samples.runningOperation)
             [Ok Samples.runningOperation; Throw MoreSamples.entityNotFoundError])
          MoreSamples.animatorReady).1
     = KeyPanel.
Proof.
  split; [reflexivity|]. split; [reflexivity|].
  assert (Hpending : Forall (fun op => notDone op = true) [Samples.runningOperation]).
  { repeat constructor. }
  destruct (invalid_key_forces_reselection MoreSamples.engineMessage
              (Some (lit "key")) Samples.host Samples.fetchObjectURL (lit "key")
              Samples.runningOperation [Samples.runningOperation]
              MoreSamples.entityNotFoundError [] MoreSamples.animatorReady _
              (Ok ())
              eq_refl eq_refl eq_refl Hpending eq_refl eq_refl eq_refl eq_refl)
    as (Heffs & _ & _ & _ & _ & _ & Hview & _).
  split; [exact Heffs|exact Hview].
Defined.

End VideoAnimatorFacts.


(** ** Audio decoding *)

Module SpeechFacts.
Import Speech.






(** The two ends of the range: the octets 00 80 are the sample -1, the
    octets FF 7F the sample 32767/32768. *)
Example pcm_extremes :
  decodePcmData (decodeBase64 [0; 128; 255; 127])
  = Samples [QArith_base.Qmake (-32768) 32768; QArith_base.Qmake 32767 32768].
Proof. reflexivity. Qed.

(** No octet at all: [createBuffer] refuses a buffer of no frame. *)
Example pcm_of_nothing : decodePcmData (decodeBase64 []) = NotSupportedError.
Proof. reflexivity. Qed.

End SpeechFacts.


(** ** Durable storage: what a write touches, what mounting leaves *)

Module StartupFacts.
Import Storage Startup StorageFacts.

Section WithPlatform.

Variable JSON_parse : jsstring -> Exn json.
Variable JSON_stringify : json -> jsstring.
Variable hasRoom : gmap jsstring jsstring -> jsstring -> jsstring -> bool.

(** A write of [usePersistentState] never raises and touches its own key
    only: every other key initializes as before, and when the storage has
    no room nothing is stored at all. *)
Theorem persistent_write_touches_one_key (ls : gmap jsstring jsstring)
    (K : jsstring) (V : json) :
  exists ls',
    usePersistentState_effect JSON_stringify hasRoom ls K V = Ok ls'
    /\ (forall K' d, K' <> K ->
          usePersistentState_init JSON_parse ls' K' d
          = usePersistentState_init JSON_parse ls K' d)
    /\ (hasRoom ls K (JSON_stringify V) = false -> ls' = ls)
    /\ (hasRoom ls K (JSON_stringify V) = true ->
        getItem ls' K = Some (JSON_stringify V)).
Proof.
  unfold usePersistentState_effect, setItem.
  destruct (hasRoom ls K (JSON_stringify V)); simpl; eexists;
    (split; [reflexivity|]).
  - split; [|split; [done|]].
    + intros K' d Hne. unfold usePersistentState_init, getItem.
      by rewrite lookup_insert_ne.
    + intros _. apply lookup_insert_eq.
  - by repeat split.
Qed.

Lemma mapE_throws {A B} (f : A -> Exn B) (xs : list A) (x : A) (e : Error) :
  In x xs -> f x = Throw e -> exists e', mapE f xs = Throw e'.
Proof.
  intros Hin Hx. induction xs as [|y xs IH]; simpl in *; [done|].
  destruct Hin as [->|Hin].
  - rewrite Hx. by eexists.
  - destruct (f y); simpl; [|by eexists].
    destruct (IH Hin) as [e' ->]. by eexists.
Qed.

Lemma unloadable_loads_nothing (ls : gmap jsstring jsstring) (saved : jsstring) :
  ls !! lit "gemini-chat-history" = Some saved ->
  unloadable (JSON_parse saved) ->
  loadChatHistory JSON_parse ls = Ok None.
Proof.
  intros Hsaved Hbad. unfold loadChatHistory, getItem. rewrite Hsaved.
  destruct (truthy saved); [|done].
  destruct (JSON_parse saved) as [[| | | |sessions|]|e]; simpl; try done.
  assert (H : exists e, mapE validSession sessions = Throw e).
  { destruct Hbad as [Hnull|(fields & items & Hin & Hm & Hnull)].
    - by apply (mapE_throws validSession sessions JNull TypeError).
    - destruct (mapE_throws validMessage items JNull TypeError Hnull eq_refl)
        as [e He].
      apply (mapE_throws validSession sessions (JObj fields) e Hin).
      unfold validSession. simpl. rewrite Hm. simpl. by rewrite He. }
  destruct H as [e ->]. done.
Qed.

(** Mounting the application always rewrites the stored history.  When
    the stored text cannot be used (it does not parse, is no array, or
    holds a [null] session or turn), the application starts with no
    session and the storage then holds the empty list: every stored
    session is gone, the sound ones too. *)
Theorem unloadable_history_is_erased (ls : gmap jsstring jsstring)
    (saved : jsstring) :
  ls !! lit "gemini-chat-history" = Some saved ->
  unloadable (JSON_parse saved) ->
  hasRoom ls (lit "gemini-chat-history") (JSON_stringify (JArr [])) = true ->
  mount JSON_parse JSON_stringify hasRoom ls
  = ([], <[lit "gemini-chat-history" := JSON_stringify (JArr [])]> ls).
Proof.
  intros Hsaved Hbad Hroom. unfold mount.
  rewrite (unloadable_loads_nothing ls saved Hsaved Hbad).
  unfold saveChatHistory, setItem. by rewrite Hroom.
Qed.

(** When the stored history loads, mounting leaves in the storage the
    text of the loaded sessions, the turns of empty content taken out;
    the text that was there is replaced. *)
Theorem mount_stores_loaded_history (ls : gmap jsstring jsstring)
    (validHistory : list LoadedSession) :
  loadChatHistory JSON_parse ls = Ok (Some validHistory) ->
  (forall ls' text, hasRoom ls' (lit "gemini-chat-history") text = true) ->
  mount JSON_parse JSON_stringify hasRoom ls
  = (validHistory,
     <[lit "gemini-chat-history" :=
         JSON_stringify (JArr (loadedSessionValue <$> validHistory))]> ls).
Proof.
  intros Hload Hroom. unfold mount, saveChatHistory, setItem.
  rewrite Hload, !Hroom. by rewrite insert_insert_eq.
Qed.

Lemma validMessage_messageValue (m : ChatMessage) :
  validMessage (messageValue m)
  = Ok {| content := JStr (Types.content m); role := Types.role m |}.
Proof.
  destruct m as [r c]. unfold validMessage, messageValue. simpl.
  f_equal. f_equal.
  - by destruct c.
  - by destruct r.
Qed.

Lemma mapE_validMessage_values (msgs : list ChatMessage) :
  mapE validMessage (messageValue <$> msgs)
  = Ok ((fun m => {| content := JStr (Types.content m); role := Types.role m |})
          <$> msgs).
Proof.
  induction msgs as [|m msgs IH]; [done|].
  rewrite !fmap_cons. cbn [mapE]. by rewrite validMessage_messageValue, IH.
Qed.

Lemma validSession_sessionValue (s : ChatSession) :
  validSession (sessionValue s) = Ok (reloaded s).
Proof.
  unfold validSession, sessionValue, reloaded. simpl.
  rewrite mapE_validMessage_values. simpl. do 2 f_equal.
  induction (Types.messages s) as [|m msgs IH]; [done|].
  rewrite fmap_cons. simpl. rewrite IH.
  destruct m as [r [|c0 c]]; reflexivity.
Qed.

Lemma mapE_validSession_values (chatHistory : list ChatSession) :
  mapE validSession (sessionValue <$> chatHistory) = Ok (reloaded <$> chatHistory).
Proof.
  induction chatHistory as [|s h IH]; [done|].
  rewrite !fmap_cons. cbn [mapE]. by rewrite validSession_sessionValue, IH.
Qed.

(** The sessions made in one run and stored come back in the next: each
    one as the object that was stored, with its turns in order, and
    without the turns whose content is empty. *)
Theorem saved_sessions_reload (ls : gmap jsstring jsstring)
    (chatHistory : list ChatSession) :
  let stored := JArr (sessionValue <$> chatHistory) in
  JSON_parse (JSON_stringify stored) = Ok stored ->
  JSON_parse [] = Throw SyntaxError ->
  hasRoom ls (lit "gemini-chat-history") (JSON_stringify stored) = true ->
  loadChatHistory JSON_parse
    (saveChatHistory JSON_stringify hasRoom ls (sessionValue <$> chatHistory))
  = Ok (Some (reloaded <$> chatHistory)).
Proof.
  cbv zeta. intros Hround Hempty Hroom.
  unfold saveChatHistory, setItem. rewrite Hroom.
  unfold loadChatHistory, getItem. rewrite lookup_insert_eq.
  destruct (JSON_stringify (JArr (sessionValue <$> chatHistory))) as [|c text] eqn:Ht;
    [congruence|].
  simpl. rewrite Hround. simpl.
  by rewrite mapE_validSession_values.
Qed.

End WithPlatform.

Lemma persistent_write_touches_one_key_witness :
  lit "search-prompt" <> lit "imageEditor-prompt"
  /\ exists ls',
       usePersistentState_effect Storage.stringify_keyword MoreSamples.roomy
         MoreSamples.brokenHistory (lit "imageEditor-prompt") (JBool true)
       = Ok ls'
       /\ usePersistentState_init Storage.parse_keyword ls'
            (lit "search-prompt") JNull
          = usePersistentState_init Storage.parse_keyword
              MoreSamples.brokenHistory (lit "search-prompt") JNull.
Proof.
  assert (Hne : lit "search-prompt" <> lit "imageEditor-prompt").
  { vm_compute. discriminate. }
  split; [exact Hne|].
  destruct (persistent_write_touches_one_key Storage.parse_keyword
              Storage.stringify_keyword MoreSamples.roomy
              MoreSamples.brokenHistory (lit "imageEditor-prompt") (JBool true))
    as (ls' & Hwrite & Hother & _).
  exists ls'. split; [exact Hwrite|]. exact (Hother _ JNull Hne).
Defined.

Lemma unloadable_history_is_erased_witness :
  unloadable (Storage.parse_keyword (lit "{oops"))
  /\ mount Storage.parse_keyword MoreSamples.stringifySaved MoreSamples.roomy
       MoreSamples.brokenHistory
     = ([], <[lit "gemini-chat-history" := lit "[]"]> MoreSamples.brokenHistory).
Proof.
  assert (Hbad : unloadable (Storage.parse_keyword (lit "{oops"))).
  { vm_compute. exact I. }
  split; [exact Hbad|].
  exact (unloadable_history_is_erased Storage.parse_keyword
           MoreSamples.stringifySaved MoreSamples.roomy MoreSamples.brokenHistory
           (lit "{oops") (lookup_singleton_eq _ _) Hbad eq_refl).
Defined.

Lemma mount_stores_loaded_history_witness :
  exists validHistory,
    loadChatHistory Samples.parseStored Samples.storedHistory
    = Ok (Some validHistory)
    /\ mount Samples.parseStored MoreSamples.stringifySaved MoreSamples.roomy
         Samples.storedHistory
       = (validHistory,
          <[lit "gemini-chat-history" := MoreSamples.savedText]>
            Samples.storedHistory).
Proof.
  eexists. split; [exact load_stored_history|].
  exact (mount_stores_loaded_history Samples.parseStored
           MoreSamples.stringifySaved MoreSamples.roomy Samples.storedHistory _
           load_stored_history (fun _ _ => eq_refl)).
Defined.

Lemma saved_sessions_reload_witness :
  MoreSamples.parseSaved
    (MoreSamples.stringifySaved (JArr (sessionValue <$> [Samples.earlierSession])))
  = Ok (JArr (sessionValue <$> [Samples.earlierSession]))
  /\ loadChatHistory MoreSamples.parseSaved
       (saveChatHistory MoreSamples.stringifySaved MoreSamples.roomy ∅
          (sessionValue <$> [Samples.earlierSession]))
     = Ok (Some [reloaded Samples.earlierSession]).
Proof.
  split; [reflexivity|].
  exact (saved_sessions_reload MoreSamples.parseSaved MoreSamples.stringifySaved
           MoreSamples.roomy ∅ [Samples.earlierSession] eq_refl eq_refl eq_refl).
Defined.

End StartupFacts.
